(** * GenerateTechFile: the Blender-to-TikZ curve exporter

    A shallow embedding of [src/GenerateTechFile.py] and the properties of
    its export pipeline: spline serialisation, option composition, the
    material table, document assembly and the sinks.

    Conventions of the embedding.
    - A Python [str] is a [string]; every character is a code point below
      256.
    - A Python [float] is a value of the abstract type [float] of the class
      [Runtime]: a finite binary float, known through its exact rational
      value [fval], its sign bit [fsign] and its shortest round-trip
      rendering [float_repr] (what [str] and an f-string field produce).
    - Exceptions are values of [exn]; a computation that may raise returns
      a [result], and one that also reads or updates the module-level
      material table or the sinks lives in the monad [M]. The state a
      computation reached when it raised is kept, as in Python.
    - Diagnostic [print] calls are not part of the model. *)

From Stdlib Require Import List String Ascii ZArith QArith Qabs Lia Bool.
From Stdlib Require Import DecimalString.
From Stdlib Require Import Sorting.Permutation Sorting.Sorted.
Import ListNotations.
Open Scope string_scope.

Set Implicit Arguments.

(** ** Python strings *)

Module Py.

(** The line feed, written [\n] in the source. *)
Definition nl_char : ascii := ascii_of_nat 10.
Definition nl : string := String nl_char "".

(** [str.isspace] on one code point below 256. *)
Definition isspace (c : ascii) : bool :=
  let n := nat_of_ascii c in
  ((9 <=? n) && (n <=? 13) || (28 <=? n) && (n <=? 32)
   || (n =? 133) || (n =? 160))%nat.

(** [len(s) == 0], i.e. [not s]. *)
Definition is_empty (s : string) : bool :=
  match s with EmptyString => true | String _ _ => false end.

(** [sep.join(l)] for a list of [str]. *)
Definition join (sep : string) (l : list string) : string :=
  String.concat sep l.

(** [s.lstrip()], [s.rstrip()] and [s.strip()]. *)
Fixpoint lstrip (s : string) : string :=
  match s with
  | EmptyString => EmptyString
  | String c s' => if isspace c then lstrip s' else s
  end.

Fixpoint rstrip (s : string) : string :=
  match s with
  | EmptyString => EmptyString
  | String c s' =>
      let r := rstrip s' in
      if is_empty r && isspace c then EmptyString else String c r
  end.

Definition strip (s : string) : string := lstrip (rstrip s).

(** [s.split()]: the maximal runs of non-space characters. [cur] is the
    run being read. *)
Fixpoint split_from (cur s : string) : list string :=
  match s with
  | EmptyString => if is_empty cur then [] else [cur]
  | String c s' =>
      if isspace c
      then (if is_empty cur then split_from "" s'
            else cur :: split_from "" s')
      else split_from (cur ++ String c "") s'
  end.

Definition split (s : string) : list string := split_from "" s.

(** [s.replace(a, b)] for one-character [a] and [b]. *)
Fixpoint replace (a b : ascii) (s : string) : string :=
  match s with
  | EmptyString => EmptyString
  | String c s' =>
      String (if Ascii.eqb c a then b else c) (replace a b s')
  end.

(** [s.find(sub)]: the index of the first occurrence, or [-1]. *)
Fixpoint find (sub s : string) : Z :=
  if String.prefix sub s then 0%Z
  else match s with
       | EmptyString => (-1)%Z
       | String _ s' =>
           let i := find sub s' in
           if (i <? 0)%Z then (-1)%Z else (i + 1)%Z
       end.

(** [s.lower()], on the letters A to Z. No code point from 128 to 255
    lowers to an ASCII character, so comparisons of the result with
    ASCII literals are exact. *)
Definition lower_char (c : ascii) : ascii :=
  let n := nat_of_ascii c in
  if ((65 <=? n) && (n <=? 90))%nat then ascii_of_nat (n + 32) else c.

Fixpoint lower (s : string) : string :=
  match s with
  | EmptyString => EmptyString
  | String c s' => String (lower_char c) (lower s')
  end.

(** [str(n)] for an [int]. *)
Definition str_of_Z (n : Z) : string :=
  NilZero.string_of_int (Z.to_int n).

(** The characters of a string, as iterating over it yields them. *)
Definition chars (s : string) : list ascii := list_ascii_of_string s.

End Py.

(** ** Exceptions *)

Inductive exn : Type :=
| IndexError
| TypeError
| KeyError
| ValueError.

Inductive result (A : Type) : Type :=
| Ok (a : A)
| Raise (e : exn).

Arguments Ok {A} a.
Arguments Raise {A} e.

Definition rbind {A B} (r : result A) (k : A -> result B) : result B :=
  match r with
  | Ok a => k a
  | Raise e => Raise e
  end.

Declare Scope result_scope.
Delimit Scope result_scope with result.
Notation "x <- c ;; k" := (rbind c (fun x => k))
  (at level 61, c at next level, right associativity) : result_scope.
Notation "' pat <- c ;; k" := (rbind c (fun x => match x with pat => k end))
  (at level 61, pat pattern, c at next level, right associativity)
  : result_scope.

(** [l[0]]. *)
Definition first {A} (l : list A) : result A :=
  match l with
  | [] => Raise IndexError
  | a :: _ => Ok a
  end.

(** ** Property values

    Custom properties are dynamically typed. The exporter distinguishes
    strings from everything else and otherwise only asks for truthiness
    and [str]; integers stand for the values that are not strings. *)

Inductive pyval : Type :=
| PyStr (s : string)
| PyInt (n : Z).

Definition truthy (v : pyval) : bool :=
  match v with
  | PyStr s => negb (Py.is_empty s)
  | PyInt n => negb (n =? 0)%Z
  end.

(** [str(v)], also what the conversion [%s] inserts. *)
Definition py_str (v : pyval) : string :=
  match v with
  | PyStr s => s
  | PyInt n => Py.str_of_Z n
  end.

(** [sep.join(l)] for a list of arbitrary values: every item has to be a
    [str]. *)
Fixpoint strs_of (l : list pyval) : result (list string) :=
  match l with
  | [] => Ok []
  | PyStr s :: l' => (ss <- strs_of l' ;; Ok (s :: ss))%result
  | PyInt _ :: _ => Raise TypeError
  end.

Definition join_vals (sep : string) (l : list pyval) : result string :=
  (ss <- strs_of l ;; Ok (Py.join sep ss))%result.

(** A [dict] with string keys: insertion ordered, an assignment to a key
    that is present replaces the value in place. *)
Section Dict.
Variable V : Type.

Definition dict : Type := list (string * V).

Fixpoint dict_get (k : string) (d : dict) : option V :=
  match d with
  | [] => None
  | (k', v) :: d' => if String.eqb k k' then Some v else dict_get k d'
  end.

Fixpoint dict_set (k : string) (v : V) (d : dict) : dict :=
  match d with
  | [] => [(k, v)]
  | (k', v') :: d' =>
      if String.eqb k k' then (k, v) :: d' else (k', v') :: dict_set k v d'
  end.

Definition dict_keys (d : dict) : list string := map fst d.
Definition dict_values (d : dict) : list V := map snd d.
End Dict.

(** ** The Python runtime the exporter relies on *)

Class Runtime : Type := {
  (** finite [float] values *)
  float : Type;
  (** the exact value of a float *)
  fval : float -> Q;
  (** its sign bit (set for negative values and for [-0.0]) *)
  fsign : float -> bool;
  (** [str(x)] and [f"{x}"]: the shortest rendering that reads back as [x] *)
  float_repr : float -> string;
  (** [textwrap.wrap(text, 80, subsequent_indent="  ",
      break_long_words=False)] *)
  wrap : string -> list string
}.

Section Floats.
Context {RT : Runtime}.

(** [a < b], [a > b], [a != b] on floats. *)
Definition flt (a b : float) : bool := negb (Qle_bool (fval b) (fval a)).
Definition fgt (a b : float) : bool := flt b a.
Definition fne (a : float) (q : Q) : bool := negb (Qeq_bool (fval a) q).

(** Rounding of a non-negative rational to the nearest integer, ties to
    the even one: the rounding of the [%f] conversion. *)
Definition round_half_even (q : Q) : Z :=
  let n := Qnum q in
  let d := Zpos (Qden q) in
  let f := (n / d)%Z in
  match (2 * (n mod d) ?= d)%Z with
  | Lt => f
  | Gt => (f + 1)%Z
  | Eq => if Z.even f then f else (f + 1)%Z
  end.

Definition digit (n : Z) : ascii := ascii_of_nat (48 + Z.to_nat n).

(** Four decimal digits, zero padded. *)
Definition pad4 (n : Z) : string :=
  String (digit (n / 1000 mod 10))
    (String (digit (n / 100 mod 10))
       (String (digit (n / 10 mod 10))
          (String (digit (n mod 10)) ""))).

(** ["%.4f" % x]. *)
Definition fmt4f (x : float) : string :=
  let m := round_half_even (Qabs (fval x) * 10000) in
  (if fsign x then "-" else "")
    ++ Py.str_of_Z (m / 10000) ++ "." ++ pad4 (m mod 10000).
End Floats.

(** ** The scene graph, as the exporter reads it *)

Module Vec.
(** A vector of the host, read through [.x], [.y] and [.z] or unpacked
    into three floats. *)
Record t {RT : Runtime} : Type := mk { x : float; y : float; z : float }.
End Vec.

Module BezierPoint.
Record t {RT : Runtime} : Type :=
  mk { handle_left : Vec.t; co : Vec.t; handle_right : Vec.t }.
End BezierPoint.

Module SplinePoint.
Record t {RT : Runtime} : Type := mk { co : Vec.t }.
End SplinePoint.

Module Spline.
(** [bezier_points] is the sequence that the Bezier branch of
    [write_object] walks, [SplinePoint] the one that its polyline branch
    walks. *)
Record t {RT : Runtime} : Type := mk {
  type : string;
  use_cyclic_u : bool;
  bezier_points : list BezierPoint.t;
  SplinePoint : list SplinePoint.t
}.
End Spline.

Module Material.
Record t {RT : Runtime} : Type := mk {
  name : string;
  properties : dict pyval;
  rgbCol : float * float * float;
  alpha : float
}.
End Material.

Module GameProperty.
Record t : Type := mk { type : string; data : pyval }.
End GameProperty.

Module Curve.
(** [obj.data] of a curve object. [materials] is what reading
    [obj.data.materials] gives, [None] when that raises; a slot of the
    list may be empty. *)
Record t {RT : Runtime} : Type := mk {
  splines : list Spline.t;
  materials : option (list (option Material.t))
}.
End Curve.

Module Object.
(** Objects are identified by their name, which the host keeps unique;
    [parent] is the name of the parent object. [properties] answers
    [obj.properties[name]] and [game_properties] answers
    [obj.getProperty(name)]; a name that is absent makes the lookup
    raise. The two marker positions relative to the parent are computed
    by the host's matrix arithmetic:
    [translation_in_parent] is
    [(empty.mat * (obj.mat.copy()).invert()).translationPart] and
    [offset_from_parent] is [(empty.matrix - obj.matrix).translation]. *)
Record t {RT : Runtime} : Type := mk {
  name : string;
  type : string;
  location : Vec.t;
  rotation_euler : Vec.t;
  scale : Vec.t;
  matrix_world_translation : Vec.t;
  parent : option string;
  data : Curve.t;
  properties : dict pyval;
  game_properties : dict GameProperty.t;
  translation_in_parent : Vec.t;
  offset_from_parent : Vec.t
}.
End Object.

Module Scene.
Record t : Type := mk { properties : dict pyval }.
End Scene.

Module Context.
Record t {RT : Runtime} : Type := mk {
  selected_objects : list Object.t;
  scene : Scene.t
}.
End Context.

(** The properties of the operator [TechFileExport], which [execute]
    passes to [write_tex] one by one. *)
Record Options : Type := {
  USE_PLOTPATH : bool;
  WRAP_LINES : bool;
  DRAW_CURVE : bool;
  FILL_CLOSED_CURVE : bool;
  TRANSFORM_CURVE : bool;
  EXPORT_MATERIALS : bool;
  EMPTIES : bool;
  ONLY_PROPERTIES : bool;
  STANDALONE : bool;
  CODE_ONLY : bool;
  CLIPBOARD_OUTPUT : bool
}.

(** ** The world: the module-level material table and the sinks *)

Inductive sink_event : Type :=
| FileOpened (path : string)
| FileWritten (path : string) (text : string)
| ClipboardCopied (text : string).

(** What the file system does with the one file of an export. *)
Inductive file_fault : Type :=
| NoFault
| OpenFails
| HeaderWriteFails
| BodyWriteFails.

(** The sinks' behaviour during one call: the fault of the file sink, and
    whether the clipboard module can be imported and copies. *)
Record Sinks : Type := { file : file_fault; clipboard_works : bool }.

Record World {RT : Runtime} : Type := {
  used_materials : dict Material.t;
  sink_log : list sink_event
}.

Section Exporter.
Context {RT : Runtime}.

(** The state of a freshly loaded module: [used_materials = {}]. *)
Definition module_loaded : World :=
  {| used_materials := []; sink_log := [] |}.

Definition M (A : Type) : Type := World -> result A * World.

Definition mret {A} (a : A) : M A := fun w => (Ok a, w).

Definition mbind {A B} (c : M A) (k : A -> M B) : M B :=
  fun w =>
    match c w with
    | (Ok a, w') => k a w'
    | (Raise e, w') => (Raise e, w')
    end.

Definition lift {A} (r : result A) : M A := fun w => (r, w).

Definition register (k : string) (m : Material.t) : M unit :=
  fun w =>
    (Ok tt, {| used_materials := dict_set k m (used_materials w);
               sink_log := sink_log w |}).

Definition emit (e : sink_event) : M unit :=
  fun w =>
    (Ok tt, {| used_materials := used_materials w;
               sink_log := sink_log w ++ [e] |}).

Definition read_materials : M (dict Material.t) :=
  fun w => (Ok (used_materials w), w).
End Exporter.

Declare Scope exporter_scope.
Delimit Scope exporter_scope with M.
Notation "x <- c ;; k" := (mbind c (fun x => k))
  (at level 61, c at next level, right associativity) : exporter_scope.
Notation "c ;;; k" := (mbind c (fun _ => k))
  (at level 61, right associativity) : exporter_scope.

(** ** Templates *)

Definition standalone_template : string :=
"
\documentclass{article}
\usepackage{tikz}
%(preamble)s
%(materials)s
\begin{document}
\begin{tikzpicture}
%(pathcode)s
\end{tikzpicture}
\end{document}
".

Definition fig_template : string :=
"
%(materials)s
\begin{tikzpicture}
%(pathcode)s
\end{tikzpicture}
".

(** [str(bl_info["version"])], the tuple [(2, 0)]. *)
Definition bl_info_version : string := "(2, 0)".

(** [template % templatevars] with a dictionary on the right: the
    conversions the templates use are [%(key)s], and [%%] for a percent
    sign; any other conversion is reported as [ValueError]. *)
Inductive format_state : Type :=
| InText
| AfterPercent
| InKey (key : string)
| AfterKey (key : string).

Fixpoint format_from (st : format_state) (template : string)
    (vars : dict pyval) : result string :=
  match template with
  | EmptyString =>
      match st with
      | InText => Ok ""
      | _ => Raise ValueError
      end
  | String c rest =>
      match st with
      | InText =>
          if Ascii.eqb c "%" then format_from AfterPercent rest vars
          else (out <- format_from InText rest vars ;;
                Ok (String c out))%result
      | AfterPercent =>
          if Ascii.eqb c "(" then format_from (InKey "") rest vars
          else if Ascii.eqb c "%"
               then (out <- format_from InText rest vars ;;
                     Ok (String c out))%result
               else Raise ValueError
      | InKey key =>
          if Ascii.eqb c ")" then format_from (AfterKey key) rest vars
          else format_from (InKey (key ++ String c "")) rest vars
      | AfterKey key =>
          if Ascii.eqb c "s"
          then match dict_get key vars with
               | Some v =>
                   (out <- format_from InText rest vars ;;
                    Ok (py_str v ++ out))%result
               | None => Raise KeyError
               end
          else Raise ValueError
      end
  end.

Definition format (template : string) (vars : dict pyval) : result string :=
  format_from InText template vars.

(** ** Utility functions *)

(** [nsplit(seq, 2)]: the sequence cut into pairs, an odd last element
    dropped. The exporter calls [nsplit] with [n = 2] only. *)
Fixpoint nsplit {A} (seq : list A) : list (A * A) :=
  match seq with
  | a :: b :: rest => (a, b) :: nsplit rest
  | _ => []
  end.

(** [nsplit(seq, n)] for any [n]: the tuples that [zip] draws from [n]
    references to one iterator over [seq], until the iterator runs out
    in the middle of a tuple; no tuple at all when [n] is zero. Each
    tuple takes [n] elements, so the length of [seq] is fuel enough. *)
Fixpoint nsplit_fuel {A} (fuel n : nat) (seq : list A) : list (list A) :=
  match fuel with
  | O => []
  | S fuel' =>
      if (n =? 0)%nat || (List.length seq <? n)%nat then []
      else firstn n seq :: nsplit_fuel fuel' n (skipn n seq)
  end.

Definition nsplit_by {A} (seq : list A) (n : nat) : list (list A) :=
  nsplit_fuel (List.length seq) n seq.

(** [mreplace(s, chararray, newchararray)]: one [replace] per pair of
    characters, in order. *)
Definition mreplace (s : string) (chararray newchararray : string) : string :=
  fold_left (fun s ab => Py.replace (fst ab) (snd ab) s)
    (combine (Py.chars chararray) (Py.chars newchararray)) s.

Definition tikzify (s : string) : string :=
  if negb (Py.is_empty (Py.strip s)) then mreplace s "\,:." "-+_*"
  else "".

(** [sorted(l, key=functools.cmp_to_key(mycmp))]: the key of [a] is less
    than the key of [b] when [mycmp(a, b) < 0]; the sort compares keys
    with [<] only and is stable. *)
Section Sorted.
Variable A : Type.
Variable mycmp : A -> A -> Z.

Definition key_lt (a b : A) : bool := (mycmp a b <? 0)%Z.

Fixpoint insert (a : A) (l : list A) : list A :=
  match l with
  | [] => [a]
  | b :: l' => if key_lt b a then b :: insert a l' else a :: l
  end.

Definition sorted (l : list A) : list A := fold_right insert [] l.
End Sorted.

Section Source.
Context {RT : Runtime}.

Definition cmp (a b : float) : Z := (Z.b2z (fgt a b) - Z.b2z (flt a b))%Z.

(** [get_property(obj, name)]: the custom property whatever its type,
    then the game property when it is a string that is not blank. A
    lookup that raises adds nothing. *)
Definition get_property (obj : Object.t) (name : string) : list pyval :=
  let prop_value :=
    match dict_get name (Object.properties obj) with
    | Some v => [v]
    | None => []
    end in
  match dict_get name (Object.game_properties obj) with
  | Some prop =>
      match GameProperty.data prop with
      | PyStr data =>
          if String.eqb (GameProperty.type prop) "STRING"
             && negb (Py.is_empty (Py.strip data))
          then (prop_value ++ [PyStr data])%list
          else prop_value
      | PyInt _ => prop_value
      end
  | None => prop_value
  end.

(** [get_material(material)]; [None] is a material that is not set. *)
Definition get_material (material : option Material.t) : M string :=
  match material with
  | None => mret ""
  | Some material =>
      let mat_name := tikzify (Material.name material) in
      (register mat_name material ;;; mret mat_name)%M
  end.

(** The truth value of [proponly] in [write_materials] once the
    [onlyproperties] property of the material has been consulted. *)
Definition proponly_of (material : Material.t) (ONLY_PROPERTIES : bool)
    : bool :=
  match dict_get "onlyproperties" (Material.properties material) with
  | Some (PyStr s) =>
      if negb (Py.is_empty s)
      then negb (String.eqb (Py.lower s) "0"
                 || String.eqb (Py.lower s) "false")
      else false
  | Some (PyInt n) => negb (n =? 0)%Z
  | None => ONLY_PROPERTIES
  end.

(** One turn of the loop of [write_materials]: the text it appends to
    [c]. *)
Definition material_code (ONLY_PROPERTIES : bool) (material : Material.t)
    : result string :=
  let mat_name := tikzify (Material.name material) in
  let proponly := proponly_of material ONLY_PROPERTIES in
  let matopts :=
    match dict_get "style" (Material.properties material) with
    | Some v => v
    | None => PyStr ""
    end in
  let '(r, g, b) := Material.rgbCol material in
  let alpha := Material.alpha material in
  let colored := negb (proponly && truthy matopts) in
  let c :=
    if colored
    then "\definecolor{" ++ mat_name ++ "_col}{rgb}{" ++ float_repr r
           ++ "," ++ float_repr g ++ "," ++ float_repr b ++ "}" ++ Py.nl
    else "" in
  let options :=
    if colored
    then PyStr (mat_name ++ "_col")
           :: (if negb (Qle_bool 1 (fval alpha))
               then [PyStr ("opacity=" ++ float_repr alpha)] else [])
    else [] in
  let options :=
    if truthy matopts then (options ++ [matopts])%list else options in
  (joined <- join_vals "," options ;;
   Ok (c ++ "\tikzstyle{" ++ mat_name ++ "}= [" ++ joined ++ "]" ++ Py.nl)
  )%result.

Definition write_materials (used_materials : dict Material.t)
    (ONLY_PROPERTIES : bool) : result string :=
  fold_left
    (fun c material =>
       (c <- c ;; code <- material_code ONLY_PROPERTIES material ;;
        Ok (c ++ code))%result)
    (dict_values used_materials)
    (Ok ("% Materials section " ++ Py.nl)).
End Source.

(** ** Serialising one object *)

Section WriteObject.
Context {RT : Runtime}.

(** ["(+%.4f,+%.4f)" % (v.x, v.y)]. *)
Definition knot_text (v : Vec.t) : string :=
  "(+" ++ fmt4f (Vec.x v) ++ ",+" ++ fmt4f (Vec.y v) ++ ")".

(** ["controls (+%.4f,+%.4f) and (+%.4f,+%.4f)" % (h1.x, h1.y, h2.x, h2.y)]. *)
Definition controls_text (h1 h2 : Vec.t) : string :=
  "controls " ++ knot_text h1 ++ " and " ++ knot_text h2.

(** [f"(+{point.co.x}.4f,+{point.co.y}.4f)"]: each replacement field has
    no format specification, and [.4f] is literal text after it. *)
Definition coord_text (point : SplinePoint.t) : string :=
  "(+" ++ float_repr (Vec.x (SplinePoint.co point)) ++ ".4f,+"
    ++ float_repr (Vec.y (SplinePoint.co point)) ++ ".4f)".

(** The handles of all control points, left then right, in order. *)
Definition handles_of (points : list BezierPoint.t) : list Vec.t :=
  flat_map
    (fun point =>
       [BezierPoint.handle_left point; BezierPoint.handle_right point])
    points.

Definition knots_of (points : list BezierPoint.t) : list string :=
  map (fun point => knot_text (BezierPoint.co point)) points.

(** The segments appended after the first knot. *)
Definition segments (hh knots : list string) (ps : string) : string :=
  fold_left
    (fun ps hk => ps ++ "  .. " ++ fst hk ++ " .. " ++ snd hk ++ Py.nl)
    (combine hh knots) ps.

(** The branch [spline.type == "BEZIER"]: the text [ps] after it. *)
Definition bezier_path (spline : Spline.t) (ps : string) : result string :=
  let handles := handles_of (Spline.bezier_points spline) in
  let knots := knots_of (Spline.bezier_points spline) in
  (hk <- (if Spline.use_cyclic_u spline
          then (h0 <- first handles ;;
                k0 <- first knots ;;
                Ok ((tl handles ++ [h0])%list, (knots ++ [k0])%list))
          else Ok (removelast (tl handles), knots)) ;;
   let hh :=
     map (fun h => controls_text (fst h) (snd h)) (nsplit (fst hk)) in
   k0 <- first (snd hk) ;;
   let ps := segments hh (tl (snd hk)) (ps ++ k0 ++ Py.nl) in
   Ok (if Spline.use_cyclic_u spline
       then ps ++ "  -- cycle" ++ Py.nl else ps))%result.

(** The item ['cycle\n  '] that closes the coordinates of a cyclic
    polyline. *)
Definition cycle_item : string := "cycle" ++ Py.nl ++ "  ".

(** The wrapped join of the coordinates: the counter [i] and the text. *)
Definition wrapped_join (coords : list string) (ps : string) : string :=
  snd (fold_left
         (fun st c =>
            let i := (fst st + 1)%nat in
            if negb (i mod 3 =? 0)%nat
            then (i, snd st ++ "-- " ++ c)
            else (i, snd st ++ "  -- " ++ c ++ Py.nl ++ "  "))
         coords (0%nat, ps)).

(** The branch [spline.type == "POLY"]: the text [ps] after it. *)
Definition poly_path (o : Options) (obj : Object.t) (spline : Spline.t)
    (ps : string) : result string :=
  let coords := map coord_text (Spline.SplinePoint spline) in
  if USE_PLOTPATH o then
    let plotopts := get_property obj "plotstyle" in
    (poptstr <- match plotopts with
                | [] => Ok ""
                | _ => (joined <- join_vals "," plotopts ;;
                        Ok ("[" ++ joined ++ "]"))
                end ;;
     let ps :=
       ps ++ " plot" ++ poptstr ++ " coordinates {"
          ++ Py.join " " coords ++ "}" in
     let ps := if Spline.use_cyclic_u spline
               then ps ++ " -- cycle" else ps in
     Ok (if WRAP_LINES o then Py.join Py.nl (wrap ps) else ps))%result
  else
    (coords <- (if Spline.use_cyclic_u spline
                then (c0 <- first coords ;;
                      Ok (coords ++ [c0; cycle_item])%list)
                else Ok coords) ;;
     if WRAP_LINES o
     then (c0 <- first coords ;;
           Ok (wrapped_join (tl coords) (ps ++ c0 ++ Py.nl ++ "  ")))
     else Ok (ps ++ Py.join " -- " coords))%result.

(** One turn of the loop over the splines. *)
Definition spline_path (o : Options) (obj : Object.t) (spline : Spline.t)
    (ps : string) : result string :=
  if String.eqb (Spline.type spline) "BEZIER" then bezier_path spline ps
  else if String.eqb (Spline.type spline) "POLY"
       then poly_path o obj spline ps
       else Ok ps.

(** The loop over [curvedata.splines], from [ps]. *)
Fixpoint splines_path (o : Options) (obj : Object.t)
    (splines : list Spline.t) (ps : string) : result string :=
  match splines with
  | [] => Ok ps
  | spline :: rest =>
      (ps <- spline_path o obj spline ps ;;
       splines_path o obj rest ps)%result
  end.

(** The options derived from the flags and the transform of the
    object. *)
Definition derived_options (o : Options) (obj : Object.t) (ps : string)
    : list pyval :=
  let x := Vec.x (Object.location obj) in
  let y := Vec.y (Object.location obj) in
  let rot_z := Vec.z (Object.rotation_euler obj) in
  let scale_x := Vec.x (Object.scale obj) in
  let scale_y := Vec.y (Object.scale obj) in
  ((if DRAW_CURVE o then [PyStr "draw"] else [])
   ++ (if FILL_CLOSED_CURVE o
       then (if (0 <? Py.find "cycle" ps)%Z then [PyStr "fill"] else [])
       else [])
   ++ (if TRANSFORM_CURVE o
       then (if fne x 0 then [PyStr ("xshift=" ++ fmt4f x ++ "cm")] else [])
            ++ (if fne y 0
                then [PyStr ("yshift=" ++ fmt4f y ++ "cm")] else [])
            ++ (if fne rot_z 0
                then [PyStr ("rotate=" ++ fmt4f rot_z)] else [])
            ++ (if fne scale_x 1
                then [PyStr ("xscale=" ++ fmt4f scale_x)] else [])
            ++ (if fne scale_y 1
                then [PyStr ("yscale=" ++ fmt4f scale_y)] else [])
       else []))%list.

(** The first material slot that is set. *)
Fixpoint first_material (materials : list (option Material.t))
    : option Material.t :=
  match materials with
  | [] => None
  | Some mat :: _ => Some mat
  | None :: rest => first_material rest
  end.

(** The option naming the material, which is registered on the way. *)
Definition material_options (o : Options) (obj : Object.t)
    : M (list pyval) :=
  if EXPORT_MATERIALS o then
    let materials :=
      match Curve.materials (Object.data obj) with
      | Some materials => materials
      | None => []
      end in
    match first_material materials with
    | Some mat =>
        (matopts <- get_material (Some mat) ;; mret [PyStr matopts])%M
    | None => mret []
    end
  else mret [].

(** The list [options] of the path statement, for the path text [ps]. *)
Definition compose_options (o : Options) (obj : Object.t) (ps : string)
    : M (list pyval) :=
  let options := derived_options o obj ps in
  (matopts <- material_options o obj ;;
   let options := (options ++ matopts)%list in
   let extraopts := get_property obj "style" in
   mret (options ++ extraopts)%list)%M.

(** The coordinates of the markers attached to the object. *)
Definition empties_text (o : Options) (obj : Object.t)
    (empties : dict (list Object.t)) : string :=
  if EMPTIES o then
    match dict_get (Object.name obj) empties with
    | Some children =>
        String.concat ""
          (map (fun empty =>
                  let e := if TRANSFORM_CURVE o
                           then Object.translation_in_parent empty
                           else Object.offset_from_parent empty in
                  "  " ++ knot_text e ++ " coordinate ("
                       ++ Object.name empty ++ ")" ++ Py.nl)
             children)
    | None => ""
    end
  else "".

Definition write_object (obj : Object.t) (empties : dict (list Object.t))
    (o : Options) : M string :=
  let s := "" in
  let name := Object.name obj in
  if negb (String.eqb (Object.type obj) "CURVE"
           || String.eqb (Object.type obj) "Empty")
  then mret s
  else if String.eqb (Object.type obj) "CURVE" then
    let s := s ++ "% " ++ name ++ Py.nl in
    (ps <- lift (splines_path o obj (Curve.splines (Object.data obj)) "") ;;
     if Py.is_empty ps then mret s
     else
       options <- compose_options o obj ps ;;
       optstr <- lift (join_vals "," options) ;;
       let emptstr := empties_text o obj empties in
       let ps := if negb (WRAP_LINES o)
                 then Py.join " " (Py.split (Py.replace Py.nl_char " "%char ps))
                 else ps in
       if (50 <? String.length optstr)%nat || negb (Py.is_empty emptstr)
       then mret (s ++ "\path[" ++ optstr ++ "]" ++ Py.nl ++ emptstr
                    ++ "  " ++ Py.rstrip ps ++ ";" ++ Py.nl)
       else mret (s ++ "\path[" ++ optstr ++ "] " ++ Py.rstrip ps
                    ++ ";" ++ Py.nl))%M
  else if String.eqb (Object.type obj) "Empty" && EMPTIES o
          && match Object.parent obj with None => true | Some _ => false end
  then
    let x := Vec.x (Object.matrix_world_translation obj) in
    let y := Vec.y (Object.matrix_world_translation obj) in
    mret (s ++ "\coordinate (" ++ tikzify (Object.name obj) ++ ") at ("
            ++ fmt4f x ++ "," ++ fmt4f y ++ ");" ++ Py.nl)
  else mret s.
End WriteObject.

(** ** The export entry point *)

Section WriteTex.
Context {RT : Runtime}.

Definition z_of (obj : Object.t) : float :=
  Vec.z (Object.matrix_world_translation obj).

Definition z_comp (a b : Object.t) : Z := cmp (z_of a) (z_of b).

Definition has_parent (obj : Object.t) : bool :=
  match Object.parent obj with Some _ => true | None => false end.

(** [empties_dict]: the selected markers that have a parent, by
    parent. *)
Definition empties_by_parent (objects : list Object.t)
    : dict (list Object.t) :=
  let empties_wp :=
    filter (fun obj => String.eqb (Object.type obj) "Empty"
                       && has_parent obj) objects in
  fold_left
    (fun empties_dict empty =>
       match Object.parent empty with
       | Some parent =>
           match dict_get parent empties_dict with
           | Some children =>
               dict_set parent (children ++ [empty])%list empties_dict
           | None => dict_set parent [empty] empties_dict
           end
       | None => empties_dict
       end)
    empties_wp [].

(** The loop [code += write_object(obj, ...)] over the objects given. *)
Fixpoint write_objects (objects : list Object.t)
    (empties : dict (list Object.t)) (o : Options) (code : string)
    : M string :=
  match objects with
  | [] => mret code
  | obj :: rest =>
      (s <- write_object obj empties o ;;
       write_objects rest empties o (code ++ s))%M
  end.

(** The order in which the objects are written. *)
Definition draw_order (objects : list Object.t) : list Object.t :=
  sorted z_comp objects.

(** The template chosen and the variables given to it. *)
Definition template_of (o : Options) : string :=
  if STANDALONE o then standalone_template
  else if CODE_ONLY o then "%(pathcode)s"
  else fig_template.

Definition templatevars_of (o : Options) (scn : Scene.t)
    (code matcode : string) : dict pyval :=
  let preamblecode :=
    match dict_get "preamble" (Scene.properties scn) with
    | Some v => v
    | None => PyStr ""
    end in
  let templatevars :=
    [("pathcode", PyStr code); ("preamble", preamblecode);
     ("materials", PyStr matcode)] in
  if STANDALONE o then
    match dict_get "preamble" (Scene.properties scn) with
    | Some preambleopt =>
        dict_set "preamble" (PyStr (py_str preambleopt)) templatevars
    | None => templatevars
    end
  else templatevars.

(** The text [s] that [write_tex] hands to the sink. *)
Definition assemble (context : Context.t) (o : Options) : M string :=
  let objects := Context.selected_objects context in
  let scn := Context.scene context in
  let empties_dict := empties_by_parent objects in
  (code <- write_objects (draw_order objects) empties_dict o "" ;;
   matcode <- (if EXPORT_MATERIALS o
               then (table <- read_materials ;;
                     lift (write_materials table (ONLY_PROPERTIES o)))
               else mret "") ;;
   lift (format (template_of o) (templatevars_of o scn code matcode)))%M.

Definition file_header : string :=
  "% Generated by tikz_export.py v " ++ bl_info_version ++ " " ++ Py.nl.

(** [copy_to_clipboard(text)]. *)
Definition copy_to_clipboard (sinks : Sinks) (text : string) : M bool :=
  if clipboard_works sinks
  then (emit (ClipboardCopied text) ;;; mret true)%M
  else mret false.

(** The [with open(filepath, 'w')] block inside its [try]. *)
Definition write_file (sinks : Sinks) (filepath s : string) : M string :=
  match file sinks with
  | OpenFails => mret "Failed to write file"
  | HeaderWriteFails =>
      (emit (FileOpened filepath) ;;; mret "Failed to write file")%M
  | BodyWriteFails =>
      (emit (FileOpened filepath) ;;;
       emit (FileWritten filepath file_header) ;;;
       mret "Failed to write file")%M
  | NoFault =>
      (emit (FileOpened filepath) ;;;
       emit (FileWritten filepath file_header) ;;;
       emit (FileWritten filepath s) ;;;
       mret "File sucesfully writen")%M
  end.

Definition write_tex (sinks : Sinks) (context : Context.t)
    (filepath : string) (o : Options) : M string :=
  if (List.length (Context.selected_objects context) =? 0)%nat
  then mret "ERROR: Please select at least one curve"
  else
    (s <- assemble context o ;;
     if negb (CLIPBOARD_OUTPUT o)
     then write_file sinks filepath s
     else (success <- copy_to_clipboard sinks s ;;
           if negb success
           then mret "Failed  to write to clipboard"
           else mret "tikz_export ended ..."))%M.
End WriteTex.

(** ** What the documents look like

    The texts the templates produce, written out for the statements
    below. *)

(** The standalone template around its three insertions. *)
Definition standalone_document (preamble materials pathcode : string)
    : string :=
  Py.nl ++ "\documentclass{article}" ++ Py.nl
    ++ "\usepackage{tikz}" ++ Py.nl
    ++ preamble ++ Py.nl
    ++ materials ++ Py.nl
    ++ "\begin{document}" ++ Py.nl
    ++ "\begin{tikzpicture}" ++ Py.nl
    ++ pathcode ++ Py.nl
    ++ "\end{tikzpicture}" ++ Py.nl
    ++ "\end{document}" ++ Py.nl.

(** The figure template around its two insertions. *)
Definition figure_document (materials pathcode : string) : string :=
  Py.nl ++ materials ++ Py.nl
    ++ "\begin{tikzpicture}" ++ Py.nl
    ++ pathcode ++ Py.nl
    ++ "\end{tikzpicture}" ++ Py.nl.

(** The text of the scene property [preamble], empty when it is absent. *)
Definition preamble_text (scn : Scene.t) : string :=
  match dict_get "preamble" (Scene.properties scn) with
  | Some v => py_str v
  | None => ""
  end.

(** ** Vocabulary of the statements *)

Section Vocabulary.
Context {RT : Runtime}.

(** A spline that is neither a Bezier spline nor a polyline. *)
Definition unsupported (spline : Spline.t) : Prop :=
  Spline.type spline <> "BEZIER" /\ Spline.type spline <> "POLY".

(** [a] is not nearer than [b]: its depth is at most that of [b]. *)
Definition depth_le (a b : Object.t) : Prop :=
  (fval (z_of a) <= fval (z_of b))%Q.

(** The objects whose depth is [q]. *)
Definition at_depth (q : Q) (obj : Object.t) : bool :=
  Qeq_bool (fval (z_of obj)) q.

(** [out] is what [write_object] returns for [obj] in some world. *)
Definition written_by (empties : dict (list Object.t)) (o : Options)
    (obj : Object.t) (out : string) : Prop :=
  exists w1 w2, write_object obj empties o w1 = (Ok out, w2).

(** A run of [get_material] calls, one per material, in order. *)
Fixpoint register_all (materials : list Material.t) : M unit :=
  match materials with
  | [] => mret tt
  | material :: rest =>
      (get_material (Some material) ;;; register_all rest)%M
  end.

(** The material table after [register_all] on a freshly loaded module. *)
Definition table_after (materials : list Material.t) : dict Material.t :=
  used_materials (snd (register_all materials module_loaded)).

(** The name under which a material is registered. *)
Definition registered_name (material : Material.t) : string :=
  tikzify (Material.name material).

(** The distinct names of a list, each at its first occurrence: [seen]
    holds the names met so far, in the order they were met. *)
Definition see (seen : list string) (k : string) : list string :=
  if existsb (String.eqb k) seen then seen else (seen ++ [k])%list.

Definition first_seen (names : list string) : list string :=
  fold_left see names [].

(** The replacement of one reserved character. *)
Definition transliterate (c : ascii) : ascii :=
  if Ascii.eqb c "\" then "-"%char
  else if Ascii.eqb c "," then "+"%char
  else if Ascii.eqb c ":" then "_"%char
  else if Ascii.eqb c "." then "*"%char
  else c.

Fixpoint translate (f : ascii -> ascii) (s : string) : string :=
  match s with
  | EmptyString => EmptyString
  | String c s' => String (f c) (translate f s')
  end.

(** [def] is the definition of the style [key]: an optional colour
    definition for [key] and one [\tikzstyle] line that binds [key]. *)
Definition is_definition (key def : string) : Prop :=
  exists color style,
    def = color ++ "\tikzstyle{" ++ key ++ "}= [" ++ style ++ "]" ++ Py.nl
    /\ (color = ""
        \/ exists r g b,
            color = "\definecolor{" ++ key ++ "_col}{rgb}{" ++ r ++ ","
                      ++ g ++ "," ++ b ++ "}" ++ Py.nl).

(** The table of [w'] holds the keys of the table of [w], in their
    order, and after them the keys that are new. *)
Definition extends (w w' : World) : Prop :=
  exists added,
    dict_keys (used_materials w')
    = (dict_keys (used_materials w) ++ added)%list.

(** A computation that, from any world and whether or not it raises,
    only adds keys to the material table. *)
Definition grows {A} (c : M A) : Prop := forall w, extends w (snd (c w)).

(** The status that [write_tex] returns once the document is assembled. *)
Definition status_of (sinks : Sinks) (o : Options) : string :=
  if CLIPBOARD_OUTPUT o
  then (if clipboard_works sinks then "tikz_export ended ..."
        else "Failed  to write to clipboard")
  else match file sinks with
       | NoFault => "File sucesfully writen"
       | _ => "Failed to write file"
       end.

(** A Bezier spline that is closed. *)
Definition closed_bezier (spline : Spline.t) : Prop :=
  Spline.type spline = "BEZIER" /\ Spline.use_cyclic_u spline = true.

(** A list with its first element moved to the end. *)
Definition rotate_left {A} (l : list A) : list A :=
  match l with
  | [] => []
  | a :: l' => (l' ++ [a])%list
  end.

(** The text of a closed Bezier path through [points], after [acc]: the
    first knot, then one segment from each point to the next one and from
    the last point back to the first, each through the right handle of
    the point it leaves and the left handle of the point it reaches, then
    the close marker. *)
Definition closed_path (points : list BezierPoint.t) (acc : string)
    : string :=
  match points with
  | [] => acc
  | point :: _ =>
      segments
        (map (fun leg =>
                controls_text (BezierPoint.handle_right (fst leg))
                  (BezierPoint.handle_left (snd leg)))
           (combine points (rotate_left points)))
        (knots_of (rotate_left points))
        (acc ++ knot_text (BezierPoint.co point) ++ Py.nl)
      ++ "  -- cycle" ++ Py.nl
  end.

(** The test that [write_object] makes before it adds the fill flag: the
    close marker occurs in the path text, and not at its very start. *)
Definition has_close_marker (ps : string) : Prop :=
  (0 < Py.find "cycle" ps)%Z.

(** The number of options that are the fill flag. *)
Definition is_fill (v : pyval) : bool :=
  match v with
  | PyStr s => String.eqb s "fill"
  | PyInt _ => false
  end.

Definition count_fill (options : list pyval) : nat :=
  List.length (filter is_fill options).

(** How a path text starts: with a knot or a coordinate, or with a plot
    operation, whose blank may have been dropped by a wrap. *)
Definition path_head (ps : string) : bool :=
  Py.is_empty ps || String.prefix "(" ps || String.prefix " plot" ps
  || String.prefix "plot" ps.

(** What the serialiser needs of [textwrap.wrap]: the wrapped text starts
    as a path text when the text does, and still holds the word [cycle]
    when the text does. The library keeps the first word of the text at
    the start of the first line, breaks lines between words only and drops
    nothing but blanks. *)
Definition wrap_keeps_paths : Prop :=
  forall text,
    (path_head text = true ->
     path_head (Py.join Py.nl (wrap text)) = true)
    /\ ((0 <= Py.find "cycle" text)%Z ->
        (0 <= Py.find "cycle" (Py.join Py.nl (wrap text)))%Z).

(** The characters that [tikzify] replaces. *)
Definition reserved (c : ascii) : bool :=
  Ascii.eqb c "\" || Ascii.eqb c "," || Ascii.eqb c ":" || Ascii.eqb c ".".

(** A string without a character that is not white space. *)
Definition blank (s : string) : bool := forallb Py.isspace (Py.chars s).

(** The material registered last under the name [key], if any, after
    [found]. *)
Definition latest_from (key : string) (materials : list Material.t)
    (found : option Material.t) : option Material.t :=
  fold_left
    (fun found material =>
       if String.eqb key (registered_name material) then Some material
       else found)
    materials found.

Definition latest (key : string) (materials : list Material.t)
    : option Material.t :=
  latest_from key materials None.

(** The material slots of an object, none when reading them raises. *)
Definition slots (obj : Object.t) : list (option Material.t) :=
  match Curve.materials (Object.data obj) with
  | Some materials => materials
  | None => []
  end.

(** Two worlds with the same material table, and with the same sinks. *)
Definition same_table (w w' : World) : Prop :=
  used_materials w' = used_materials w.

Definition same_sinks (w w' : World) : Prop := sink_log w' = sink_log w.

(** A computation that, from any world and whether or not it raises,
    leaves a world related to the one it started from. *)
Definition respects {A} (R : World -> World -> Prop) (c : M A) : Prop :=
  forall w, R w (snd (c w)).

(** Strings among the property values. *)
Definition is_str (v : pyval) : bool :=
  match v with
  | PyStr _ => true
  | PyInt _ => false
  end.

Definition all_str (l : list pyval) : bool := forallb is_str l.

Definition nonempty {A} (l : list A) : bool :=
  match l with
  | [] => false
  | _ :: _ => true
  end.

(** A spline that the serialiser can write: a Bezier spline with a
    control point; a polyline that is plotted with a [plotstyle] made of
    strings, or that is joined and has a point, or needs none because it
    is neither cyclic nor wrapped; any spline of another kind. *)
Definition spline_ok (o : Options) (obj : Object.t) (spline : Spline.t)
    : bool :=
  if String.eqb (Spline.type spline) "BEZIER"
  then nonempty (Spline.bezier_points spline)
  else if String.eqb (Spline.type spline) "POLY"
       then (if USE_PLOTPATH o
             then all_str (get_property obj "plotstyle")
             else nonempty (Spline.SplinePoint spline)
                  || negb (Spline.use_cyclic_u spline)
                     && negb (WRAP_LINES o))
       else true.

(** A material whose [style] property, if it has one, is a string or
    counts as false. *)
Definition material_ok (material : Material.t) : bool :=
  match dict_get "style" (Material.properties material) with
  | Some (PyInt n) => (n =? 0)%Z
  | _ => true
  end.

(** The definition of a material by its colour alone: the colour, and a
    style made of the colour and, below full opacity, of the opacity. *)
Definition colour_definition (material : Material.t) : string :=
  let key := registered_name material in
  let '(r, g, b) := Material.rgbCol material in
  "\definecolor{" ++ key ++ "_col}{rgb}{" ++ float_repr r ++ ","
    ++ float_repr g ++ "," ++ float_repr b ++ "}" ++ Py.nl
    ++ "\tikzstyle{" ++ key ++ "}= [" ++ key ++ "_col"
    ++ (if negb (Qle_bool 1 (fval (Material.alpha material)))
        then ",opacity=" ++ float_repr (Material.alpha material) else "")
    ++ "]" ++ Py.nl.

(** An object that [write_object] can write: any object that is not a
    curve; a curve whose splines can be written, whose [style] is made of
    strings and, when materials are exported, whose first material can be
    written by [write_materials]. *)
Definition object_ok (o : Options) (obj : Object.t) : bool :=
  if String.eqb (Object.type obj) "CURVE"
  then forallb (spline_ok o obj) (Curve.splines (Object.data obj))
       && all_str (get_property obj "style")
       && (negb (EXPORT_MATERIALS o)
           || match first_material (slots obj) with
              | Some material => material_ok material
              | None => true
              end)
  else true.

(** A world whose material table can be written. *)
Definition table_ok (w : World) : bool :=
  forallb material_ok (dict_values (used_materials w)).

(** The path text of an open Bezier spline, after [acc]: the first knot,
    then one curve segment from each point to the next, through the right
    handle of the point it leaves and the left handle of the point it
    reaches. *)
Definition open_path (points : list BezierPoint.t) (acc : string)
    : string :=
  match points with
  | [] => acc
  | point :: rest =>
      segments
        (map (fun leg =>
                controls_text (BezierPoint.handle_right (fst leg))
                  (BezierPoint.handle_left (snd leg)))
           (combine points rest))
        (knots_of rest)
        (acc ++ knot_text (BezierPoint.co point) ++ Py.nl)
  end.

(** Two lists of control points that differ at most in the left handle
    of the first point and the right handle of the last one. *)
Fixpoint same_inner_handles (first : bool) (ps qs : list BezierPoint.t)
    : Prop :=
  match ps, qs with
  | [], [] => True
  | p :: ps', q :: qs' =>
      BezierPoint.co p = BezierPoint.co q
      /\ (first = true \/ BezierPoint.handle_left p = BezierPoint.handle_left q)
      /\ (ps' = [] \/ BezierPoint.handle_right p = BezierPoint.handle_right q)
      /\ same_inner_handles false ps' qs'
  | _, _ => False
  end.




(** What the sinks receive when the document [doc] is handed to them:
    the clipboard gets the document, or nothing when it does not work;
    the file is opened and gets the header line and then the document,
    up to the step at which it fails. *)
Definition delivered (sinks : Sinks) (o : Options) (filepath doc : string)
    : list sink_event :=
  if CLIPBOARD_OUTPUT o
  then (if clipboard_works sinks then [ClipboardCopied doc] else [])
  else firstn (match file sinks with
               | OpenFails => 0
               | HeaderWriteFails => 1
               | BodyWriteFails => 2
               | NoFault => 3
               end)%nat
         [FileOpened filepath; FileWritten filepath file_header;
          FileWritten filepath doc].

(** The path text as [write_object] puts it into the statement when
    [WRAP_LINES] is off. *)
Definition normalised (ps : string) : string :=
  Py.join " " (Py.split (Py.replace Py.nl_char " " ps)).

(** A word: a string that is not empty and holds no white space. *)
Definition no_space (s : string) : Prop :=
  Forall (fun c => Py.isspace c = false) (Py.chars s).

Definition word (s : string) : Prop := s <> "" /\ no_space s.

(** A spline that is an open Bezier spline or of a kind that is skipped,
    closed or not: it is not a polyline and, when it is a Bezier spline,
    it is not closed. *)
Definition open_curve (spline : Spline.t) : Prop :=
  Spline.type spline <> "POLY"
  /\ (Spline.type spline = "BEZIER" -> Spline.use_cyclic_u spline = false).

(** The character [c] does not occur in [s]. *)
Definition lacks (c : ascii) (s : string) : Prop :=
  Forall (fun a => a <> c) (Py.chars s).

(** The custom style of a material as text: its [style] property when
    that is a string, and the empty text otherwise. *)
Definition style_text (material : Material.t) : string :=
  match dict_get "style" (Material.properties material) with
  | Some (PyStr s) => s
  | _ => ""
  end.

(** The one definition of a material, written out: the colour from the
    RGB triple, unless only the properties count and the material has a
    custom style; then the binding of the name to a style made of the
    colour, of the opacity below full opacity and of the custom style,
    separated by commas. *)
Definition rendered (ONLY : bool) (material : Material.t) : string :=
  let key := registered_name material in
  let '(r, g, b) := Material.rgbCol material in
  let custom := style_text material in
  let suppressed :=
    proponly_of material ONLY && negb (Py.is_empty custom) in
  let derived :=
    if suppressed then []
    else (key ++ "_col")
           :: (if negb (Qle_bool 1 (fval (Material.alpha material)))
               then ["opacity=" ++ float_repr (Material.alpha material)]
               else []) in
  (if suppressed then ""
   else "\definecolor{" ++ key ++ "_col}{rgb}{" ++ float_repr r ++ ","
          ++ float_repr g ++ "," ++ float_repr b ++ "}" ++ Py.nl)
    ++ "\tikzstyle{" ++ key ++ "}= ["
    ++ Py.join "," (derived ++ (if Py.is_empty custom then [] else [custom]))
    ++ "]" ++ Py.nl.

(** [def] is the definition emitted for the name [key] of [table]: the
    one definition of the material that the table holds under [key]. *)
Definition definition_of (table : dict Material.t) (ONLY : bool)
    (key def : string) : Prop :=
  exists material,
    dict_get key table = Some material
    /\ def = rendered ONLY material
    /\ is_definition key def.

End Vocabulary.

(** ** A concrete runtime: decimal floats

    The floats nearest to the decimals with four fractional digits and a
    magnitude below [10^11], each given by its count of ten-thousandths.
    Such a decimal has at most fifteen significant digits, so it reads
    back as its float: [%.4f] prints the decimal itself and [str] prints
    it without its trailing zeros, keeping one fractional digit. No scene
    of this development asks for wrapped plot paths, and [wrap] returns
    its text as one line. *)

Module Dec4.
(** The fractional digits of [str]: four digits without the trailing
    zeros, at least one. *)
Definition frac_digits (n : Z) : string :=
  if (n mod 1000 =? 0)%Z then String (digit (n / 1000)) ""
  else if (n mod 100 =? 0)%Z
       then String (digit (n / 1000)) (String (digit (n / 100 mod 10)) "")
       else if (n mod 10 =? 0)%Z
            then String (digit (n / 1000))
                   (String (digit (n / 100 mod 10))
                      (String (digit (n / 10 mod 10)) ""))
            else pad4 n.

Definition repr (d : Z) : string :=
  (if (d <? 0)%Z then "-" else "")
    ++ Py.str_of_Z (Z.abs d / 10000) ++ "."
    ++ frac_digits (Z.abs d mod 10000).

#[export] Instance runtime : Runtime := {|
  float := Z;
  fval := fun d => Qmake d 10000;
  fsign := fun d => (d <? 0)%Z;
  float_repr := repr;
  wrap := fun text => [text]
|}.

(** The vector [(x, y, z)], in ten-thousandths. *)
Definition vec (x y z : Z) : Vec.t := @Vec.mk runtime x y z.
Definition origin : Vec.t := vec 0 0 0.
Definition unit_scale : Vec.t := vec 10000 10000 10000.
End Dec4.

(** ** Scenes

    Concrete scenes over the decimal floats, used to run the exporter. *)

Module Scenes.
Import Dec4.

Definition options (plot wrap_lines draw fill transform materials empties
    standalone code_only : bool) : Options :=
  {| USE_PLOTPATH := plot; WRAP_LINES := wrap_lines; DRAW_CURVE := draw;
     FILL_CLOSED_CURVE := fill; TRANSFORM_CURVE := transform;
     EXPORT_MATERIALS := materials; EMPTIES := empties;
     ONLY_PROPERTIES := false; STANDALONE := standalone;
     CODE_ONLY := code_only; CLIPBOARD_OUTPUT := false |}.

(** Only [DRAW_CURVE] is set. *)
Definition draw_only : Options :=
  options false false true false false false false false false.

Definition disk : Sinks := {| file := NoFault; clipboard_works := true |}.

(** A curve object at depth [z] with an identity transform. *)
Definition curve (name : string) (z : Z) (splines : list Spline.t)
    (materials : list (option Material.t)) (properties : dict pyval)
    : Object.t :=
  Object.mk name "CURVE" origin origin unit_scale (vec 0 0 z) None
    (Curve.mk splines (Some materials)) properties [] origin origin.

Definition scene (objects : list Object.t) : Context.t :=
  Context.mk objects (Scene.mk []).

Definition poly (cyclic : bool) (points : list (Z * Z)) : Spline.t :=
  Spline.mk "POLY" cyclic []
    (map (fun p => SplinePoint.mk (vec (fst p) (snd p) 0)) points).

(** The closed polyline through (0,0), (1,0) and (1,1). *)
Definition triangle : Object.t :=
  curve "tri" 0 [poly true [(0, 0); (10000, 0); (10000, 10000)]%Z] [] [].

(** The path expression emitted for [triangle]. *)
Definition triangle_path : string :=
  "(+0.0.4f,+0.0.4f) -- (+1.0.4f,+0.0.4f) -- (+1.0.4f,+1.0.4f) -- "
    ++ "(+0.0.4f,+0.0.4f) -- cycle".

(** What [write_object] returns for [triangle] under [draw_only]. *)
Definition triangle_code : string :=
  "% tri" ++ Py.nl ++ "\path[draw] " ++ triangle_path ++ ";" ++ Py.nl.

(** The path expression that signed four-decimal coordinates would
    give for [triangle]. *)
Definition triangle_path_expected : string :=
  "(+0.0000,+0.0000) -- (+1.0000,+0.0000) -- (+1.0000,+1.0000) -- "
    ++ "(+0.0000,+0.0000) -- cycle".

(** An open Bezier spline from (-1.234, 0.5) to (1, 2). *)
Definition arc_spline (cyclic : bool) : Spline.t :=
  Spline.mk "BEZIER" cyclic
    [BezierPoint.mk (vec (-20000) 5000 0) (vec (-12340) 5000 0)
       (vec (-5000) 5000 0);
     BezierPoint.mk (vec 5000 20000 0) (vec 10000 20000 0)
       (vec 15000 20000 0)]
    [].

Definition arc : Object.t := curve "arc" 0 [arc_spline false] [] [].

(** The path text of the closed version of [arc]. *)
Definition loop_path : string :=
  "(+-1.2340,+0.5000)" ++ Py.nl
    ++ "  .. controls (+-0.5000,+0.5000) and (+0.5000,+2.0000) .. "
    ++ "(+1.0000,+2.0000)" ++ Py.nl
    ++ "  .. controls (+1.5000,+2.0000) and (+-2.0000,+0.5000) .. "
    ++ "(+-1.2340,+0.5000)" ++ Py.nl
    ++ "  -- cycle" ++ Py.nl.

(** What [write_object] returns for [arc] under [draw_only]. *)
Definition arc_code : string :=
  "% arc" ++ Py.nl
    ++ "\path[draw] (+-1.2340,+0.5000) .. controls (+-0.5000,+0.5000) "
    ++ "and (+0.5000,+2.0000) .. (+1.0000,+2.0000);" ++ Py.nl.

(** A closed Bezier curve. *)
Definition loop : Object.t := curve "loop" 0 [arc_spline true] [] [].

(** A closed Bezier curve whose custom style asks for a fill. *)
Definition filled_loop : Object.t :=
  curve "loop" 0 [arc_spline true] [] [("style", PyStr "fill")].

Definition fill_closed : Options :=
  options false false true true false false false false false.

(** What [write_object] returns for [filled_loop] under [fill_closed]. *)
Definition filled_loop_code : string :=
  "% loop" ++ Py.nl
    ++ "\path[draw,fill,fill] (+-1.2340,+0.5000) "
    ++ ".. controls (+-0.5000,+0.5000) and (+0.5000,+2.0000) .. "
    ++ "(+1.0000,+2.0000) "
    ++ ".. controls (+1.5000,+2.0000) and (+-2.0000,+0.5000) .. "
    ++ "(+-1.2340,+0.5000) -- cycle;" ++ Py.nl.

(** A top-level marker at (1, 2). *)
Definition marker : Object.t :=
  Object.mk "A" "Empty" origin origin unit_scale (vec 10000 20000 0) None
    (Curve.mk [] None) [] [] origin origin.

Definition with_empties : Options :=
  options false false true false false false true false false.

(** A curve whose only spline is a NURBS spline. *)
Definition nurbs_only : Object.t :=
  curve "patch" 0 [Spline.mk "NURBS" false [] []] [] [].

(** Three curves at the depths 0.5, -1.0 and 2.0, and a fourth one at
    0.5 again. *)
Definition segment : Spline.t := poly false [(0, 0); (10000, 0)]%Z.
Definition middle : Object.t := curve "middle" 5000 [segment] [] [].
Definition far : Object.t := curve "far" (-10000) [segment] [] [].
Definition near : Object.t := curve "near" 20000 [segment] [] [].
Definition middle_too : Object.t := curve "middle2" 5000 [segment] [] [].

Definition depths : Context.t := scene [middle; far; near; middle_too].

(** Materials. *)
Definition red : Material.t :=
  @Material.mk runtime "red" [] (10000, 0, 0)%Z 10000%Z.
Definition glass : Material.t :=
  @Material.mk runtime "glass.01" [] (0, 5000, 10000)%Z 5000%Z.
Definition red_again : Material.t :=
  @Material.mk runtime "red" [] (10000, 0, 0)%Z 10000%Z.

Definition red_segment : Object.t :=
  curve "painted" 0 [segment] [Some red] [].
Definition plain_segment : Object.t := curve "plain" 0 [segment] [] [].

(** What [write_object] returns for [plain_segment] under
    [with_materials]. *)
Definition plain_code : string :=
  "% plain" ++ Py.nl
    ++ "\path[draw] (+0.0.4f,+0.0.4f) -- (+1.0.4f,+0.0.4f);" ++ Py.nl.

(** The definition that [write_materials] emits for [red]. *)
Definition red_definition : string :=
  "\definecolor{red_col}{rgb}{1.0,0.0,0.0}" ++ Py.nl
    ++ "\tikzstyle{red}= [red_col]" ++ Py.nl.

Definition materials_header : string := "% Materials section " ++ Py.nl.

(** The definition that [write_materials] emits for [glass]. *)
Definition glass_definition : string :=
  "\definecolor{glass*01_col}{rgb}{0.0,0.5,1.0}" ++ Py.nl
    ++ "\tikzstyle{glass*01}= [glass*01_col,opacity=0.5]" ++ Py.nl.

(** The figure template with the materials. *)
Definition with_materials : Options :=
  options false false true false false true false false false.

(** Both [STANDALONE] and [CODE_ONLY] are set. *)
Definition standalone_and_code_only : Options :=
  options false false true false false false false true true.
Definition code_only : Options :=
  options false false true false false false false false true.

(** A curve whose custom property [style] is the integer 5. *)
Definition odd_style : Object.t :=
  curve "odd" 0 [segment] [] [("style", PyInt 5)].

(** The world after a first export, of [red_segment]. *)
Definition after_first_export : World :=
  snd (write_tex disk (scene [red_segment]) "first.tex" with_materials
         module_loaded).


(** A material defined by its own style alone. *)
Definition ink : Material.t :=
  @Material.mk runtime "ink.1"
    [("onlyproperties", PyStr "yes"); ("style", PyStr "thick,dashed")]
    (0, 0, 0)%Z 10000%Z.

(** The open arc followed by a closed NURBS spline. *)
Definition arc_and_patch : Object.t :=
  curve "both" 0 [arc_spline false; Spline.mk "NURBS" true [] []] [] [].

(** [STANDALONE], [CODE_ONLY] and [EXPORT_MATERIALS] are set. *)
Definition standalone_code_only_materials : Options :=
  options false false true false false true false true true.
End Scenes.

(** * Properties *)

(** ** Strings *)

Lemma append_empty_r (s : string) : s ++ "" = s.
Proof. induction s as [|c s IH]; simpl; [reflexivity | now rewrite IH]. Qed.

Lemma append_empty_l (s : string) : "" ++ s = s.
Proof. reflexivity. Qed.

Lemma append_assoc (s t u : string) : (s ++ t) ++ u = s ++ (t ++ u).
Proof. induction s as [|c s IH]; simpl; [reflexivity | now rewrite IH]. Qed.

(** ** The utility functions on examples *)

(** The first example of the docstring of [nsplit]. *)
Example nsplit_pairs :
  nsplit (Py.chars "aabbcc") = [("a", "a"); ("b", "b"); ("c", "c")]%char.
Proof. reflexivity. Qed.

Example nsplit_discards_the_rest : nsplit [1; 2; 3]%nat = [(1, 2)]%nat.
Proof. reflexivity. Qed.

Example tikzify_reserved : tikzify "a.b\c,d:e" = "a*b-c+d_e".
Proof. reflexivity. Qed.

Example tikzify_blank : tikzify "  " = "".
Proof. reflexivity. Qed.

(** ** The monad *)

Section MonadFacts.
Context {RT : Runtime}.

Lemma mbind_ok {A B} (c : M A) (k : A -> M B) w b w' :
  mbind c k w = (Ok b, w') ->
  exists a w1, c w = (Ok a, w1) /\ k a w1 = (Ok b, w').
Proof.
  unfold mbind. destruct (c w) as [[a|e] w1]; intro H.
  - exists a, w1. split; [reflexivity | exact H].
  - discriminate H.
Qed.

Lemma lift_ok {A} (r : result A) w a w' :
  lift r w = (Ok a, w') -> r = Ok a /\ w' = w.
Proof. unfold lift. intro H. inversion H. split; reflexivity. Qed.
End MonadFacts.

(** ** The templates *)

Lemma format_standalone vars pre mat code :
  dict_get "preamble" vars = Some pre ->
  dict_get "materials" vars = Some mat ->
  dict_get "pathcode" vars = Some code ->
  format standalone_template vars
  = Ok (standalone_document (py_str pre) (py_str mat) (py_str code)).
Proof.
  intros Hp Hm Hc. unfold format, standalone_template. cbn.
  rewrite Hp. cbn. rewrite Hm. cbn. rewrite Hc. cbn. reflexivity.
Qed.

Lemma format_figure vars mat code :
  dict_get "materials" vars = Some mat ->
  dict_get "pathcode" vars = Some code ->
  format fig_template vars = Ok (figure_document (py_str mat) (py_str code)).
Proof.
  intros Hm Hc. unfold format, fig_template. cbn.
  rewrite Hm. cbn. rewrite Hc. cbn. reflexivity.
Qed.

Lemma format_code_only vars code :
  dict_get "pathcode" vars = Some code ->
  format "%(pathcode)s" vars = Ok (py_str code).
Proof.
  intros Hc. unfold format. cbn. rewrite Hc. cbn.
  rewrite append_empty_r. reflexivity.
Qed.

(** ** Document assembly *)

Section Assembly.
Context {RT : Runtime}.

(** What a successful [assemble] went through. *)
Lemma assemble_ok (context : Context.t) o w doc w' :
  assemble context o w = (Ok doc, w') ->
  exists code matcode,
    write_objects (draw_order (Context.selected_objects context))
      (empties_by_parent (Context.selected_objects context)) o "" w
    = (Ok code, w')
    /\ (if EXPORT_MATERIALS o
        then write_materials (used_materials w') (ONLY_PROPERTIES o)
             = Ok matcode
        else matcode = "")
    /\ format (template_of o)
         (templatevars_of o (Context.scene context) code matcode)
       = Ok doc.
Proof.
  unfold assemble. intro H.
  apply mbind_ok in H. destruct H as (code & w1 & Hcode & H).
  apply mbind_ok in H. destruct H as (matcode & w2 & Hmat & H).
  apply lift_ok in H. destruct H as [Hdoc ->].
  exists code, matcode.
  destruct (EXPORT_MATERIALS o).
  - apply mbind_ok in Hmat. destruct Hmat as (table & w3 & Hread & Hmat).
    unfold read_materials in Hread. inversion Hread; subst table w3.
    apply lift_ok in Hmat. destruct Hmat as [Hmat ->].
    repeat split; assumption.
  - unfold mret in Hmat. inversion Hmat; subst.
    repeat split; try assumption; reflexivity.
Qed.

Lemma templatevars_pathcode o scn code matcode :
  dict_get "pathcode" (templatevars_of o scn code matcode)
  = Some (PyStr code).
Proof.
  unfold templatevars_of.
  destruct (STANDALONE o); [|reflexivity].
  destruct (dict_get "preamble" (Scene.properties scn)); reflexivity.
Qed.

Lemma templatevars_materials o scn code matcode :
  dict_get "materials" (templatevars_of o scn code matcode)
  = Some (PyStr matcode).
Proof.
  unfold templatevars_of.
  destruct (STANDALONE o); [|reflexivity].
  destruct (dict_get "preamble" (Scene.properties scn)); reflexivity.
Qed.

Lemma templatevars_preamble o scn code matcode :
  STANDALONE o = true ->
  dict_get "preamble" (templatevars_of o scn code matcode)
  = Some (PyStr (preamble_text scn)).
Proof.
  unfold templatevars_of, preamble_text. intros ->.
  destruct (dict_get "preamble" (Scene.properties scn)); reflexivity.
Qed.

(** Claim C1, as the code has it. [STANDALONE] is tested first: when it
    is set the document is the standalone wrapper around the preamble,
    the materials and the path code, whatever [CODE_ONLY] says; the
    document is the bare path code when [CODE_ONLY] is set and
    [STANDALONE] is not, and the figure around the materials and the path
    code when neither is set. The path code is what the loop over the
    objects returns, and the materials are what [write_materials]
    returns for the table that the loop leaves, or the empty text without
    [EXPORT_MATERIALS]. *)
Theorem standalone_overrides_code_only (context : Context.t) o w doc w' :
  assemble context o w = (Ok doc, w') ->
  exists code matcode,
    write_objects (draw_order (Context.selected_objects context))
      (empties_by_parent (Context.selected_objects context)) o "" w
    = (Ok code, w')
    /\ (if EXPORT_MATERIALS o
        then write_materials (used_materials w') (ONLY_PROPERTIES o)
             = Ok matcode
        else matcode = "")
    /\ (STANDALONE o = true ->
        doc = standalone_document
                (preamble_text (Context.scene context)) matcode code)
    /\ (STANDALONE o = false -> CODE_ONLY o = true -> doc = code)
    /\ (STANDALONE o = false -> CODE_ONLY o = false ->
        doc = figure_document matcode code).
Proof.
  intro H. apply assemble_ok in H.
  destruct H as (code & matcode & Hcode & Hmat & Hdoc).
  exists code, matcode. split; [exact Hcode|]. split; [exact Hmat|].
  split; [|split].
  - intro Hs. unfold template_of in Hdoc. rewrite Hs in Hdoc.
    erewrite format_standalone in Hdoc;
      [| apply templatevars_preamble; exact Hs
       | apply templatevars_materials
       | apply templatevars_pathcode].
    simpl in Hdoc. inversion Hdoc. reflexivity.
  - intros Hs Hc. unfold template_of in Hdoc. rewrite Hs, Hc in Hdoc.
    erewrite format_code_only in Hdoc; [| apply templatevars_pathcode].
    simpl in Hdoc. inversion Hdoc. reflexivity.
  - intros Hs Hc. unfold template_of in Hdoc. rewrite Hs, Hc in Hdoc.
    erewrite format_figure in Hdoc;
      [| apply templatevars_materials | apply templatevars_pathcode].
    simpl in Hdoc. inversion Hdoc. reflexivity.
Qed.
End Assembly.

(** The theorem at the scene of the segment painted with [red], with
    [STANDALONE], [CODE_ONLY] and [EXPORT_MATERIALS] set: the document is
    the standalone wrapper, and its material block is the definition of
    [red]. *)
Lemma standalone_overrides_code_only_witness :
  exists code w',
    write_objects (draw_order [Scenes.red_segment])
      (empties_by_parent [Scenes.red_segment])
      Scenes.standalone_code_only_materials "" module_loaded
    = (Ok code, w')
    /\ assemble (Scenes.scene [Scenes.red_segment])
         Scenes.standalone_code_only_materials module_loaded
       = (Ok (standalone_document ""
                (Scenes.materials_header ++ Scenes.red_definition) code),
          w').
Proof.
  destruct (standalone_overrides_code_only
              (Scenes.scene [Scenes.red_segment])
              Scenes.standalone_code_only_materials module_loaded eq_refl)
    as (code & matcode & Hcode & Hmat & Hstandalone & _).
  cbn [EXPORT_MATERIALS Scenes.standalone_code_only_materials
       Scenes.options] in Hmat.
  assert (E : matcode = Scenes.materials_header ++ Scenes.red_definition).
  { assert (E : Ok matcode
                = Ok (Scenes.materials_header ++ Scenes.red_definition)).
    { rewrite <- Hmat. reflexivity. }
    congruence. }
  eexists. eexists. split; [exact Hcode|].
  rewrite <- E.
  replace (standalone_document "" matcode code)
    with (standalone_document
            (preamble_text
               (Context.scene (Scenes.scene [Scenes.red_segment])))
            matcode code)
    by reflexivity.
  rewrite <- (Hstandalone eq_refl). reflexivity.
Defined.

(** Claim C1 fails as stated: with [STANDALONE] and [CODE_ONLY] both set,
    the document assembled for the triangle scene is the standalone
    wrapper, which starts with [\documentclass] after its first line feed
    and differs from the bare path code that [CODE_ONLY] alone gives. *)
Lemma code_only_does_not_override_standalone :
  STANDALONE Scenes.standalone_and_code_only = true
  /\ CODE_ONLY Scenes.standalone_and_code_only = true
  /\ fst (assemble (Scenes.scene [Scenes.triangle])
            Scenes.standalone_and_code_only module_loaded)
     = Ok (standalone_document "" "" Scenes.triangle_code)
  /\ fst (assemble (Scenes.scene [Scenes.triangle]) Scenes.code_only
            module_loaded)
     = Ok Scenes.triangle_code
  /\ standalone_document "" "" Scenes.triangle_code <> Scenes.triangle_code
  /\ Py.find "\documentclass{article}"
       (standalone_document "" "" Scenes.triangle_code) = 1%Z.
Proof.
  repeat split; try reflexivity.
  vm_compute. discriminate.
Qed.

(** ** The empty selection *)

Section EmptySelection.
Context {RT : Runtime}.

(** Claim C8. With an empty selection [write_tex] returns the
    empty-selection message as its status and stops there: the world is
    the one it started from, so no document has been assembled, no file
    has been opened or written, nothing has been copied to the clipboard
    and the material table is untouched. *)
Theorem empty_selection_aborts (sinks : Sinks) (context : Context.t)
    filepath o w :
  Context.selected_objects context = [] ->
  write_tex sinks context filepath o w
  = (Ok "ERROR: Please select at least one curve", w).
Proof.
  intro Hsel. unfold write_tex. rewrite Hsel. reflexivity.
Qed.
End EmptySelection.

(** The theorem at the scene without objects, on a disk that works. *)
Lemma empty_selection_aborts_witness :
  Context.selected_objects (Scenes.scene []) = []
  /\ write_tex Scenes.disk (Scenes.scene []) "out.tex" Scenes.draw_only
       module_loaded
     = (Ok "ERROR: Please select at least one curve", module_loaded).
Proof.
  split.
  - reflexivity.
  - apply (empty_selection_aborts Scenes.disk (Scenes.scene []) "out.tex"
             Scenes.draw_only module_loaded).
    reflexivity.
Defined.

(** ** Unsupported splines *)

Section Unsupported.
Context {RT : Runtime}.

Lemma spline_path_unsupported o obj spline ps :
  unsupported spline -> spline_path o obj spline ps = Ok ps.
Proof.
  intros [Hb Hp]. unfold spline_path.
  apply String.eqb_neq in Hb. apply String.eqb_neq in Hp.
  rewrite Hb, Hp. reflexivity.
Qed.

Lemma splines_path_unsupported o obj splines ps :
  Forall unsupported splines -> splines_path o obj splines ps = Ok ps.
Proof.
  induction 1 as [|spline rest Hs _ IH]; simpl.
  - reflexivity.
  - rewrite (spline_path_unsupported o obj ps Hs). simpl. exact IH.
Qed.

(** Claim C9. A curve object all of whose splines are of unsupported
    kinds makes [write_object] return without raising, with the comment
    line that names the object and no path statement after it, and
    without touching the world; the loop over the objects goes on with
    the objects that follow. *)
Theorem unsupported_splines_no_statement (obj : Object.t) empties o w :
  Object.type obj = "CURVE" ->
  Forall unsupported (Curve.splines (Object.data obj)) ->
  write_object obj empties o w
  = (Ok ("% " ++ Object.name obj ++ Py.nl), w)
  /\ forall rest code,
      write_objects (obj :: rest) empties o code w
      = write_objects rest empties o
          (code ++ "% " ++ Object.name obj ++ Py.nl) w.
Proof.
  intros Htype Hsplines.
  assert (Hobj : write_object obj empties o w
                 = (Ok ("% " ++ Object.name obj ++ Py.nl), w)).
  { unfold write_object. rewrite Htype. simpl.
    rewrite (splines_path_unsupported o obj "" Hsplines).
    reflexivity. }
  split; [exact Hobj|].
  intros rest code. simpl. unfold mbind. rewrite Hobj. reflexivity.
Qed.
End Unsupported.

(** The theorem at the curve whose only spline is a NURBS spline. *)
Lemma unsupported_splines_no_statement_witness :
  Object.type Scenes.nurbs_only = "CURVE"
  /\ Forall unsupported (Curve.splines (Object.data Scenes.nurbs_only))
  /\ write_object Scenes.nurbs_only [] Scenes.draw_only module_loaded
     = (Ok ("% patch" ++ Py.nl), module_loaded)
  /\ write_objects [Scenes.nurbs_only; Scenes.arc] [] Scenes.draw_only ""
       module_loaded
     = write_objects [Scenes.arc] [] Scenes.draw_only
         ("" ++ "% " ++ Object.name Scenes.nurbs_only ++ Py.nl)
         module_loaded.
Proof.
  assert (Ht : Object.type Scenes.nurbs_only = "CURVE") by reflexivity.
  assert (Hs : Forall unsupported
                 (Curve.splines (Object.data Scenes.nurbs_only))).
  { repeat constructor; discriminate. }
  split; [exact Ht|]. split; [exact Hs|].
  destruct (unsupported_splines_no_statement Scenes.nurbs_only []
              Scenes.draw_only module_loaded Ht Hs) as [Hobj Hloop].
  split; [exact Hobj | exact (Hloop [Scenes.arc] "")].
Defined.

(** ** The format of the coordinates *)

(** Claim C3, on the code. For the closed polyline through (0,0), (1,0)
    and (1,1), with [USE_PLOTPATH] and [WRAP_LINES] off, the path
    expression of the emitted statement joins the points with [--] and
    ends in [cycle], but each coordinate is the plain rendering of the
    float followed by the literal text [.4f]: it is not the expression
    with signed four-decimal coordinates. *)
Theorem closed_polyline_emission :
  USE_PLOTPATH Scenes.draw_only = false
  /\ WRAP_LINES Scenes.draw_only = false
  /\ write_object Scenes.triangle [] Scenes.draw_only module_loaded
     = (Ok ("% tri" ++ Py.nl ++ "\path[draw] " ++ Scenes.triangle_path
              ++ ";" ++ Py.nl),
        module_loaded)
  /\ Scenes.triangle_path
     = "(+0.0.4f,+0.0.4f) -- (+1.0.4f,+0.0.4f) -- (+1.0.4f,+1.0.4f) -- (+0.0.4f,+0.0.4f) -- cycle"
  /\ Scenes.triangle_path <> Scenes.triangle_path_expected.
Proof.
  repeat split; try reflexivity.
  vm_compute. discriminate.
Qed.

(** Claim C4, on the code. A knot or a handle of a Bezier spline is
    printed with a literal [+] before an unsigned [%.4f], so a negative
    value reads [+-1.2340]; a point of a polyline is printed as the plain
    rendering of the float followed by the literal text [.4f]; the
    coordinates of a top-level marker carry no sign when they are
    positive. *)
Theorem coordinates_are_not_signed_fixed_point :
  knot_text (Dec4.vec (-12340) 5000 0) = "(+-1.2340,+0.5000)"
  /\ write_object Scenes.arc [] Scenes.draw_only module_loaded
     = (Ok Scenes.arc_code, module_loaded)
  /\ coord_text (SplinePoint.mk (Dec4.vec 10000 0 0)) = "(+1.0.4f,+0.0.4f)"
  /\ write_object Scenes.triangle [] Scenes.draw_only module_loaded
     = (Ok Scenes.triangle_code, module_loaded)
  /\ write_object Scenes.marker [] Scenes.with_empties module_loaded
     = (Ok ("\coordinate (A) at (1.0000,2.0000);" ++ Py.nl), module_loaded).
Proof.
  repeat split; reflexivity.
Qed.

(** ** The draw order *)

Section StableSort.
Variable A : Type.
Variable mycmp : A -> A -> Z.
Variable key : A -> Q.
Hypothesis key_lt_spec :
  forall a b, key_lt mycmp a b = true <-> (key a < key b)%Q.

Lemma insert_permutation a l : Permutation (insert mycmp a l) (a :: l).
Proof.
  induction l as [|b l IH]; simpl.
  - apply Permutation_refl.
  - destruct (key_lt mycmp b a).
    + apply perm_trans with (b :: a :: l).
      * apply perm_skip. exact IH.
      * apply perm_swap.
    + apply Permutation_refl.
Qed.

Lemma sorted_permutation l : Permutation (sorted mycmp l) l.
Proof.
  induction l as [|a l IH]; simpl.
  - apply perm_nil.
  - apply perm_trans with (a :: sorted mycmp l).
    + apply insert_permutation.
    + apply perm_skip. exact IH.
Qed.

Let key_le (a b : A) : Prop := (key a <= key b)%Q.

Lemma insert_sorted a l :
  Sorted key_le l -> Sorted key_le (insert mycmp a l).
Proof.
  induction 1 as [|b l Hl IH Hb]; simpl.
  - repeat constructor.
  - destruct (key_lt mycmp b a) eqn:E.
    + constructor; [exact IH|].
      apply key_lt_spec in E.
      destruct Hb as [|c l Hbc]; simpl.
      * constructor. apply Qlt_le_weak. exact E.
      * destruct (key_lt mycmp c a); constructor;
          [exact Hbc | apply Qlt_le_weak; exact E].
    + constructor.
      * constructor; assumption.
      * constructor. unfold key_le.
        apply Qnot_lt_le. intro Hlt.
        apply key_lt_spec in Hlt. congruence.
Qed.

Lemma sorted_sorted l : StronglySorted key_le (sorted mycmp l).
Proof.
  apply Sorted_StronglySorted.
  - intros a b c Hab Hbc. unfold key_le in *. eapply Qle_trans; eassumption.
  - induction l as [|a l IH]; simpl.
    + constructor.
    + apply insert_sorted. exact IH.
Qed.

Let has_key (q : Q) (a : A) : bool := Qeq_bool (key a) q.

Lemma insert_stable q a l :
  filter (has_key q) (insert mycmp a l) = filter (has_key q) (a :: l).
Proof.
  induction l as [|b l IH]; simpl.
  - reflexivity.
  - destruct (key_lt mycmp b a) eqn:E; simpl.
    + rewrite IH. simpl.
      destruct (has_key q a) eqn:Ha; [|reflexivity].
      destruct (has_key q b) eqn:Hb; [|reflexivity].
      exfalso. apply key_lt_spec in E.
      unfold has_key in Ha, Hb.
      apply Qeq_bool_iff in Ha. apply Qeq_bool_iff in Hb.
      rewrite Ha, Hb in E. exact (Qlt_irrefl q E).
    + reflexivity.
Qed.

Lemma sorted_stable q l :
  filter (has_key q) (sorted mycmp l) = filter (has_key q) l.
Proof.
  induction l as [|a l IH]; simpl.
  - reflexivity.
  - rewrite insert_stable. simpl. rewrite IH. reflexivity.
Qed.
End StableSort.

Section DrawOrder.
Context {RT : Runtime}.

Lemma flt_spec (a b : float) : flt a b = true <-> (fval a < fval b)%Q.
Proof.
  unfold flt. rewrite negb_true_iff. split.
  - intro H. apply Qnot_le_lt. intro Hle.
    apply Qle_bool_iff in Hle. congruence.
  - intro H. destruct (Qle_bool (fval b) (fval a)) eqn:E; [|reflexivity].
    apply Qle_bool_iff in E. exfalso. exact (Qlt_not_le _ _ H E).
Qed.

Lemma key_lt_z_comp (a b : Object.t) :
  key_lt z_comp a b = true <-> (fval (z_of a) < fval (z_of b))%Q.
Proof.
  rewrite <- flt_spec. unfold key_lt, z_comp, cmp, fgt.
  destruct (flt (z_of a) (z_of b)) eqn:Eab.
  - destruct (flt (z_of b) (z_of a)) eqn:Eba.
    + apply flt_spec in Eab. apply flt_spec in Eba.
      exfalso. exact (Qlt_irrefl _ (Qlt_trans _ _ _ Eab Eba)).
    + simpl. split; reflexivity.
  - destruct (flt (z_of b) (z_of a)); simpl; split; discriminate.
Qed.

(** What a successful run of the loop over the objects returned. *)
Lemma write_objects_ok objects : forall empties o code w out w',
  write_objects objects empties o code w = (Ok out, w') ->
  exists outs,
    out = code ++ String.concat "" outs
    /\ Forall2 (written_by empties o) objects outs.
Proof.
  induction objects as [|obj rest IH]; intros empties o code w out w' H.
  - simpl in H. unfold mret in H. inversion H; subst.
    exists []. split; [symmetry; apply append_empty_r | constructor].
  - simpl in H. apply mbind_ok in H. destruct H as (s & w1 & Hobj & H).
    apply IH in H. destruct H as (outs & -> & Houts).
    exists (s :: outs). split.
    + rewrite append_assoc. f_equal.
      destruct outs; simpl; [apply append_empty_r | reflexivity].
    + constructor; [exists w, w1; exact Hobj | exact Houts].
Qed.

(** Claim C5. The order in which [write_tex] writes the selected objects
    is a rearrangement of the selection in which depths ascend (the
    farthest object first, the nearest last) and in which the objects of
    any one depth keep the order they have in the selection; the path
    code of an assembled document is the concatenation of what
    [write_object] returns for the objects taken in that order. *)
Theorem draw_order_ascending_stable (context : Context.t) :
  Permutation (draw_order (Context.selected_objects context))
    (Context.selected_objects context)
  /\ StronglySorted depth_le (draw_order (Context.selected_objects context))
  /\ (forall q,
        filter (at_depth q) (draw_order (Context.selected_objects context))
        = filter (at_depth q) (Context.selected_objects context))
  /\ (forall o w doc w',
        assemble context o w = (Ok doc, w') ->
        exists code matcode outs,
          format (template_of o)
            (templatevars_of o (Context.scene context) code matcode)
          = Ok doc
          /\ code = String.concat "" outs
          /\ Forall2
               (written_by
                  (empties_by_parent (Context.selected_objects context)) o)
               (draw_order (Context.selected_objects context)) outs).
Proof.
  unfold draw_order. repeat split.
  - apply sorted_permutation.
  - apply (sorted_sorted z_comp (fun obj => fval (z_of obj)) key_lt_z_comp).
  - intro q.
    apply (sorted_stable z_comp (fun obj => fval (z_of obj)) key_lt_z_comp).
  - intros o w doc w' H. apply assemble_ok in H.
    destruct H as (code & matcode & Hcode & _ & Hdoc).
    apply write_objects_ok in Hcode. destruct Hcode as (outs & -> & Houts).
    exists (String.concat "" outs), matcode, outs.
    repeat split; assumption.
Qed.
End DrawOrder.

(** The theorem at the scene of four curves selected in the order of the
    depths 0.5, -1.0, 2.0 and 0.5. *)
Lemma draw_order_ascending_stable_witness :
  draw_order (Context.selected_objects Scenes.depths)
  = [Scenes.far; Scenes.middle; Scenes.middle_too; Scenes.near]
  /\ StronglySorted depth_le
       (draw_order (Context.selected_objects Scenes.depths))
  /\ exists doc w' code matcode outs,
      assemble Scenes.depths Scenes.code_only module_loaded = (Ok doc, w')
      /\ format (template_of Scenes.code_only)
           (templatevars_of Scenes.code_only (Context.scene Scenes.depths)
              code matcode)
         = Ok doc
      /\ code = String.concat "" outs
      /\ Forall2
           (written_by
              (empties_by_parent (Context.selected_objects Scenes.depths))
              Scenes.code_only)
           (draw_order (Context.selected_objects Scenes.depths)) outs.
Proof.
  destruct (draw_order_ascending_stable Scenes.depths)
    as (_ & Hsorted & _ & Hdoc).
  split; [reflexivity|]. split; [exact Hsorted|].
  destruct (Hdoc Scenes.code_only module_loaded _ _ eq_refl)
    as (code & matcode & outs & H).
  eexists. eexists. exists code, matcode, outs.
  split; [reflexivity | exact H].
Defined.

(** ** The material table *)

Section DictFacts.
Variable V : Type.

Lemma dict_keys_set k (v : V) d :
  dict_keys (dict_set k v d) = see (dict_keys d) k.
Proof.
  unfold see. induction d as [|[k' v'] d IH]; simpl.
  - reflexivity.
  - destruct (String.eqb_spec k k') as [->|Hk]; simpl.
    + reflexivity.
    + rewrite IH.
      destruct (existsb (String.eqb k) (dict_keys d)); reflexivity.
Qed.

Lemma existsb_eqb_In k (l : list string) :
  existsb (String.eqb k) l = true <-> In k l.
Proof.
  rewrite existsb_exists. split.
  - intros (x & Hx & E). apply String.eqb_eq in E. subst. exact Hx.
  - intro H. exists k. split; [exact H | apply String.eqb_refl].
Qed.

Lemma see_NoDup seen k : NoDup seen -> NoDup (see seen k).
Proof.
  intro H. unfold see. destruct (existsb (String.eqb k) seen) eqn:E.
  - exact H.
  - apply NoDup_app; [exact H | repeat constructor; intros [] |].
    intros x Hx [<-|[]].
    apply existsb_eqb_In in Hx. congruence.
Qed.

Lemma see_In seen k x : In x (see seen k) <-> In x seen \/ x = k.
Proof.
  unfold see. destruct (existsb (String.eqb k) seen) eqn:E.
  - apply existsb_eqb_In in E. split; [tauto|].
    intros [H| ->]; assumption.
  - rewrite in_app_iff. simpl. split.
    + intros [H|[H|[]]]; [left; exact H | right; symmetry; exact H].
    + intros [H|H]; [left; exact H | right; left; symmetry; exact H].
Qed.

Lemma dict_set_entries (P : string * V -> Prop) k v (d : dict V) :
  P (k, v) -> Forall P d -> Forall P (dict_set k v d).
Proof.
  intros Hk Hd. induction Hd as [|[k' v'] d Hx Hd IH]; simpl.
  - repeat constructor. exact Hk.
  - destruct (String.eqb k k'); constructor; assumption.
Qed.
End DictFacts.

Lemma fold_see_NoDup names : forall seen,
  NoDup seen -> NoDup (fold_left see names seen).
Proof.
  induction names as [|k names IH]; intros seen H; simpl.
  - exact H.
  - apply IH. apply see_NoDup. exact H.
Qed.

Lemma fold_see_In names : forall seen x,
  In x (fold_left see names seen) <-> In x seen \/ In x names.
Proof.
  induction names as [|k names IH]; intros seen x; simpl.
  - tauto.
  - rewrite IH, see_In. intuition congruence.
Qed.

Lemma mreplace_translate (s : string) :
  mreplace s "\,:." "-+_*" = translate transliterate s.
Proof.
  unfold mreplace. simpl.
  induction s as [|c s IH]; simpl.
  - reflexivity.
  - rewrite IH. f_equal. unfold transliterate.
    destruct (Ascii.eqb_spec c "\"); [subst; reflexivity|].
    destruct (Ascii.eqb_spec c ","); [subst; reflexivity|].
    destruct (Ascii.eqb_spec c ":"); [subst; reflexivity|].
    destruct (Ascii.eqb_spec c "."); [subst; reflexivity|].
    reflexivity.
Qed.

Section MaterialTable.
Context {RT : Runtime}.

(** Every entry of the table is filed under the name of its material. *)
Let consistent (entry : string * Material.t) : Prop :=
  fst entry = registered_name (snd entry).

Lemma register_all_keys materials : forall w,
  dict_keys (used_materials (snd (register_all materials w)))
  = fold_left see (map registered_name materials)
      (dict_keys (used_materials w)).
Proof.
  induction materials as [|m rest IH]; intro w; simpl.
  - reflexivity.
  - unfold mbind, register. simpl. rewrite IH. simpl.
    rewrite dict_keys_set. reflexivity.
Qed.

Lemma register_all_consistent materials : forall w,
  Forall consistent (used_materials w) ->
  Forall consistent (used_materials (snd (register_all materials w))).
Proof.
  induction materials as [|m rest IH]; intros w H; simpl.
  - exact H.
  - unfold mbind, register. simpl. apply IH. simpl.
    apply dict_set_entries; [reflexivity | exact H].
Qed.

Lemma material_code_is_definition ONLY material def :
  material_code ONLY material = Ok def ->
  is_definition (registered_name material) def.
Proof.
  unfold material_code, registered_name.
  destruct (Material.rgbCol material) as [[r g] b].
  set (key := tikzify (Material.name material)).
  set (colored := negb _).
  match goal with |- context [join_vals "," ?l] =>
    destruct (join_vals "," l) as [joined|e] end; simpl; [|discriminate].
  intro H. inversion H as [Hdef]. clear H Hdef.
  eexists. exists joined. split; [reflexivity|].
  destruct colored.
  - right. exists (float_repr r), (float_repr g), (float_repr b).
    reflexivity.
  - left. reflexivity.
Qed.

Lemma write_materials_raise ONLY (values : list Material.t) e :
  fold_left
    (fun c material =>
       (c <- c ;; code <- material_code ONLY material ;;
        Ok (c ++ code))%result)
    values (Raise e)
  = Raise e.
Proof. induction values as [|m rest IH]; simpl; [reflexivity | exact IH]. Qed.

Lemma write_materials_fold ONLY (values : list Material.t) : forall c0 c,
  fold_left
    (fun c material =>
       (c <- c ;; code <- material_code ONLY material ;;
        Ok (c ++ code))%result)
    values (Ok c0)
  = Ok c ->
  exists defs,
    c = c0 ++ String.concat "" defs
    /\ Forall2 (fun material def => material_code ONLY material = Ok def)
         values defs.
Proof.
  induction values as [|m rest IH]; intros c0 c H; simpl in H.
  - inversion H; subst. exists []. split; [|constructor].
    symmetry. apply append_empty_r.
  - destruct (material_code ONLY m) as [code|e] eqn:E; simpl in H.
    + apply IH in H. destruct H as (defs & -> & Hdefs).
      exists (code :: defs). split.
      * rewrite append_assoc. f_equal.
        destruct defs; simpl; [apply append_empty_r | reflexivity].
      * constructor; assumption.
    + rewrite write_materials_raise in H. discriminate H.
Qed.

Lemma write_materials_definitions (table : dict Material.t) ONLY c :
  Forall consistent table ->
  write_materials table ONLY = Ok c ->
  exists defs,
    c = "% Materials section " ++ Py.nl ++ String.concat "" defs
    /\ Forall2 is_definition (dict_keys table) defs.
Proof.
  intros Htable H. unfold write_materials in H.
  apply write_materials_fold in H. destruct H as (defs & -> & Hdefs).
  exists defs. split; [rewrite append_assoc; reflexivity|].
  revert defs Hdefs.
  induction Htable as [|[k m] table Hk _ IH]; intros defs Hdefs;
    inversion Hdefs; subst; simpl; constructor.
  - unfold consistent in Hk. simpl in Hk. rewrite Hk.
    eapply material_code_is_definition. eassumption.
  - apply IH. assumption.
Qed.

Lemma material_code_rendered ONLY material def :
  material_code ONLY material = Ok def -> def = rendered ONLY material.
Proof.
  assert (same : forall X Y : string, Ok def = Ok X -> X = Y -> def = Y)
    by (intros; congruence).
  unfold material_code, rendered, style_text, registered_name.
  destruct (Material.rgbCol material) as [[r g] b].
  destruct (dict_get "style" (Material.properties material)) as [[s|n]|].
  - destruct (proponly_of material ONLY); destruct s as [|c s];
      destruct (Qle_bool 1 (fval (Material.alpha material)));
      intro H; (eapply same; [symmetry; exact H | reflexivity]).
  - cbn [truthy]. destruct (n =? 0)%Z;
      destruct (proponly_of material ONLY);
      destruct (Qle_bool 1 (fval (Material.alpha material)));
      intro H; try discriminate H;
      (eapply same; [symmetry; exact H | reflexivity]).
  - destruct (proponly_of material ONLY);
      destruct (Qle_bool 1 (fval (Material.alpha material)));
      intro H; (eapply same; [symmetry; exact H | reflexivity]).
Qed.

Lemma dict_get_entry {V} (d : dict V) k v :
  NoDup (dict_keys d) -> In (k, v) d -> dict_get k d = Some v.
Proof.
  induction d as [|[k' v'] d IH]; intros Hnd Hin; [contradiction Hin|].
  cbn [dict_keys map fst] in Hnd. inversion Hnd as [|? ? Hk' Hd]; subst.
  cbn [dict_get]. destruct Hin as [E|Hin].
  - inversion E; subst. rewrite String.eqb_refl. reflexivity.
  - destruct (String.eqb_spec k k') as [->|_].
    + exfalso. apply Hk'. unfold dict_keys.
      apply (in_map fst) in Hin. exact Hin.
    + apply IH; assumption.
Qed.

Lemma entries_definitions (table : dict Material.t) ONLY :
  NoDup (dict_keys table) ->
  forall entries defs,
    incl entries table ->
    Forall consistent entries ->
    Forall2 (fun material def => material_code ONLY material = Ok def)
      (dict_values entries) defs ->
    Forall2 (definition_of table ONLY) (dict_keys entries) defs.
Proof.
  intros Hnd. induction entries as [|[k m] entries IH];
    intros defs Hincl Hcons Hdefs;
    cbn [dict_values dict_keys map fst snd] in *;
    inversion Hdefs as [|? def ? defs' Hdef Hrest]; subst;
    constructor.
  - inversion Hcons as [|? ? Hk _]; subst.
    unfold consistent in Hk. cbn [fst snd] in Hk.
    exists m. split; [|split].
    + apply dict_get_entry; [exact Hnd|]. apply Hincl. left. reflexivity.
    + apply material_code_rendered. exact Hdef.
    + rewrite Hk. eapply material_code_is_definition. exact Hdef.
  - apply IH.
    + intros x Hx. apply Hincl. right. exact Hx.
    + inversion Hcons; assumption.
    + exact Hrest.
Qed.

Lemma write_materials_rendered (table : dict Material.t) ONLY c :
  Forall consistent table ->
  NoDup (dict_keys table) ->
  write_materials table ONLY = Ok c ->
  exists defs,
    c = "% Materials section " ++ Py.nl ++ String.concat "" defs
    /\ Forall2 (definition_of table ONLY) (dict_keys table) defs.
Proof.
  intros Htable Hnd H. unfold write_materials in H.
  apply write_materials_fold in H. destruct H as (defs & -> & Hdefs).
  exists defs. split; [rewrite append_assoc; reflexivity|].
  apply entries_definitions; try assumption. apply incl_refl.
Qed.

(** Claim C7. After any run of registrations on a freshly loaded module,
    the keys of the material table are the distinct transliterated names
    of the materials, each once, in the order in which they were first
    registered, however often each was registered; [write_materials]
    emits, after its header line, exactly one definition per key, in
    that order: the text it returns is the header line followed, key by
    key, by the one definition of the material held under the key.
    The transliteration of a name that is not blank replaces [\] by [-],
    the comma by [+], the colon by [_] and the period by [*], and leaves
    the other characters alone (a blank name is registered as the empty
    name). *)
Theorem registration_idempotent_first_seen (materials : list Material.t) :
  dict_keys (table_after materials)
  = first_seen (map registered_name materials)
  /\ NoDup (dict_keys (table_after materials))
  /\ (forall key,
        In key (dict_keys (table_after materials))
        <-> In key (map registered_name materials))
  /\ (forall ONLY c,
        write_materials (table_after materials) ONLY = Ok c ->
        exists defs,
          c = "% Materials section " ++ Py.nl ++ String.concat "" defs
          /\ Forall2 (definition_of (table_after materials) ONLY)
               (dict_keys (table_after materials)) defs)
  /\ (forall material,
        registered_name material
        = if Py.is_empty (Py.strip (Material.name material)) then ""
          else translate transliterate (Material.name material)).
Proof.
  assert (Hkeys : dict_keys (table_after materials)
                  = first_seen (map registered_name materials)).
  { unfold table_after, first_seen. rewrite register_all_keys. reflexivity. }
  assert (Hnd : NoDup (dict_keys (table_after materials))).
  { rewrite Hkeys. apply fold_see_NoDup. constructor. }
  split; [exact Hkeys|]. split; [exact Hnd|]. rewrite Hkeys. repeat split.
  - intro H. apply fold_see_In in H. destruct H as [[]|H]. exact H.
  - intro H. apply fold_see_In. right. exact H.
  - intros ONLY c H. rewrite <- Hkeys.
    apply write_materials_rendered; [|exact Hnd|exact H].
    unfold table_after. apply register_all_consistent. constructor.
  - intro material. unfold registered_name, tikzify.
    destruct (Py.is_empty (Py.strip (Material.name material))); simpl.
    + reflexivity.
    + apply mreplace_translate.
Qed.
End MaterialTable.

(** The theorem at three registrations, two of them of the name [red]. *)
Lemma registration_idempotent_first_seen_witness :
  dict_keys (table_after [Scenes.red; Scenes.glass; Scenes.red_again])
  = ["red"; "glass*01"]
  /\ write_materials
       (table_after [Scenes.red; Scenes.glass; Scenes.red_again]) false
     = Ok (Scenes.materials_header ++ Scenes.red_definition
             ++ Scenes.glass_definition)
  /\ exists defs,
      Scenes.materials_header ++ Scenes.red_definition
        ++ Scenes.glass_definition
      = "% Materials section " ++ Py.nl ++ String.concat "" defs
      /\ Forall2
           (definition_of
              (table_after [Scenes.red; Scenes.glass; Scenes.red_again])
              false)
           (dict_keys
              (table_after [Scenes.red; Scenes.glass; Scenes.red_again]))
           defs.
Proof.
  destruct (registration_idempotent_first_seen
              [Scenes.red; Scenes.glass; Scenes.red_again])
    as (Hkeys & _ & _ & Hdefs & _).
  split; [exact Hkeys|]. split; [reflexivity|].
  exact (Hdefs false _ eq_refl).
Defined.

(** ** The material table across exports *)

Section Growth.
Context {RT : Runtime}.

Lemma extends_refl w : extends w w.
Proof. exists []. symmetry. apply app_nil_r. Qed.

Lemma extends_trans w1 w2 w3 :
  extends w1 w2 -> extends w2 w3 -> extends w1 w3.
Proof.
  intros [a Ha] [b Hb]. exists (a ++ b)%list.
  rewrite Hb, Ha. symmetry. apply app_assoc.
Qed.

Lemma grows_mret {A} (a : A) : grows (mret a).
Proof. intro w. apply extends_refl. Qed.

Lemma grows_lift {A} (r : result A) : grows (lift r).
Proof. intro w. apply extends_refl. Qed.

Lemma grows_emit e : grows (emit e).
Proof. intro w. exists []. simpl. symmetry. apply app_nil_r. Qed.

Lemma grows_read_materials : grows read_materials.
Proof. intro w. apply extends_refl. Qed.

Lemma grows_register k m : grows (register k m).
Proof.
  intro w. unfold extends. simpl. rewrite dict_keys_set. unfold see.
  destruct (existsb (String.eqb k) (dict_keys (used_materials w))).
  - exists []. symmetry. apply app_nil_r.
  - exists [k]. reflexivity.
Qed.

Lemma grows_mbind {A B} (c : M A) (k : A -> M B) :
  grows c -> (forall a, grows (k a)) -> grows (mbind c k).
Proof.
  intros Hc Hk w. unfold mbind. specialize (Hc w).
  destruct (c w) as [[a|e] w1]; simpl in Hc.
  - eapply extends_trans; [exact Hc | apply Hk].
  - exact Hc.
Qed.

Lemma grows_if {A} (b : bool) (c1 c2 : M A) :
  grows c1 -> grows c2 -> grows (if b then c1 else c2).
Proof. destruct b; auto. Qed.
End Growth.

Create HintDb grows.
#[export] Hint Resolve grows_mret grows_lift grows_emit grows_read_materials
  grows_register grows_mbind grows_if : grows.

Section GrowthOfExport.
Context {RT : Runtime}.

Lemma grows_get_material material : grows (get_material material).
Proof. destruct material; simpl; auto with grows. Qed.

Lemma grows_material_options o obj : grows (material_options o obj).
Proof.
  unfold material_options.
  destruct (EXPORT_MATERIALS o); [|auto with grows].
  destruct (first_material _); [|auto with grows].
  apply grows_mbind; [apply grows_get_material | auto with grows].
Qed.

Lemma grows_compose_options o obj ps : grows (compose_options o obj ps).
Proof.
  unfold compose_options.
  apply grows_mbind; [apply grows_material_options | auto with grows].
Qed.

Lemma grows_write_object obj empties o : grows (write_object obj empties o).
Proof.
  unfold write_object. cbv zeta.
  apply grows_if; [auto with grows|].
  apply grows_if; [|auto with grows].
  apply grows_mbind; [auto with grows|]. intro ps.
  apply grows_if; [auto with grows|].
  apply grows_mbind; [apply grows_compose_options|]. intro options.
  apply grows_mbind; [auto with grows|]. intro optstr.
  auto with grows.
Qed.

Lemma grows_write_objects objects empties o : forall code,
  grows (write_objects objects empties o code).
Proof.
  induction objects as [|obj rest IH]; intro code; simpl.
  - auto with grows.
  - apply grows_mbind; [apply grows_write_object | intro; apply IH].
Qed.

Lemma grows_assemble context o : grows (assemble context o).
Proof.
  unfold assemble. cbv zeta.
  apply grows_mbind; [apply grows_write_objects|]. intro code.
  apply grows_mbind; [|auto with grows].
  apply grows_if; auto with grows.
Qed.

Lemma grows_write_tex sinks context filepath o :
  grows (write_tex sinks context filepath o).
Proof.
  unfold write_tex, write_file, copy_to_clipboard.
  apply grows_if; [auto with grows|].
  apply grows_mbind; [apply grows_assemble|]. intro s.
  apply grows_if.
  - destruct (file sinks); auto 10 with grows.
  - apply grows_mbind.
    + apply grows_if; auto with grows.
    + intro. apply grows_if; auto with grows.
Qed.

(** Claim C2, as the code has it. The material table is the module-level
    dictionary, empty when the module is loaded, and no export resets it:
    whatever a call of [write_tex] does, the table after the call holds
    the keys it held before the call, in their order, followed by the
    names first registered during the call; and the material block of an
    assembled document is [write_materials] of the table as it is after
    the objects of the call were written, the materials of earlier calls
    included. *)
Theorem material_table_is_never_reset sinks (context : Context.t)
    filepath o w :
  extends w (snd (write_tex sinks context filepath o w))
  /\ forall doc w',
      assemble context o w = (Ok doc, w') ->
      EXPORT_MATERIALS o = true ->
      extends w w'
      /\ exists code matcode,
          write_materials (used_materials w') (ONLY_PROPERTIES o)
          = Ok matcode
          /\ format (template_of o)
               (templatevars_of o (Context.scene context) code matcode)
             = Ok doc.
Proof.
  split; [apply grows_write_tex|].
  intros doc w' H Hmat. split.
  - pose proof (grows_assemble context o w) as Hg.
    rewrite H in Hg. exact Hg.
  - apply assemble_ok in H.
    destruct H as (code & matcode & _ & Hm & Hdoc).
    rewrite Hmat in Hm. exists code, matcode. split; assumption.
Qed.
End GrowthOfExport.

(** The theorem at a second export, of a curve without materials, after a
    first export that registered [red]. *)
Lemma material_table_is_never_reset_witness :
  extends Scenes.after_first_export
    (snd (write_tex Scenes.disk (Scenes.scene [Scenes.plain_segment])
            "second.tex" Scenes.with_materials Scenes.after_first_export))
  /\ exists doc w',
      assemble (Scenes.scene [Scenes.plain_segment]) Scenes.with_materials
        Scenes.after_first_export
      = (Ok doc, w')
      /\ EXPORT_MATERIALS Scenes.with_materials = true
      /\ extends Scenes.after_first_export w'
      /\ exists code matcode,
          write_materials (used_materials w')
            (ONLY_PROPERTIES Scenes.with_materials)
          = Ok matcode
          /\ format (template_of Scenes.with_materials)
               (templatevars_of Scenes.with_materials
                  (Context.scene (Scenes.scene [Scenes.plain_segment]))
                  code matcode)
             = Ok doc.
Proof.
  destruct (material_table_is_never_reset Scenes.disk
              (Scenes.scene [Scenes.plain_segment]) "second.tex"
              Scenes.with_materials Scenes.after_first_export)
    as [Hext Hdoc].
  split; [exact Hext|].
  eexists. eexists. split; [reflexivity|]. split; [reflexivity|].
  apply Hdoc; reflexivity.
Defined.

(** Claim C2 fails as stated: the curve [plain_segment] references no
    material, and its export on a freshly loaded module emits the header
    of the material block only; the same export after an export that
    registered [red] emits the definition of [red] as well. *)
Lemma second_export_repeats_earlier_materials :
  Curve.materials (Object.data Scenes.plain_segment) = Some []
  /\ fst (assemble (Scenes.scene [Scenes.plain_segment])
            Scenes.with_materials module_loaded)
     = Ok (figure_document Scenes.materials_header Scenes.plain_code)
  /\ fst (assemble (Scenes.scene [Scenes.plain_segment])
            Scenes.with_materials Scenes.after_first_export)
     = Ok (figure_document
             (Scenes.materials_header ++ Scenes.red_definition)
             Scenes.plain_code)
  /\ figure_document Scenes.materials_header Scenes.plain_code
     <> figure_document (Scenes.materials_header ++ Scenes.red_definition)
          Scenes.plain_code.
Proof.
  repeat split; try reflexivity.
  vm_compute. discriminate.
Qed.

(** ** Failures *)

Section Failures.
Context {RT : Runtime}.

Lemma write_file_status sinks filepath s w :
  fst (write_file sinks filepath s w)
  = Ok match file sinks with
       | NoFault => "File sucesfully writen"
       | _ => "Failed to write file"
       end.
Proof. unfold write_file. destruct (file sinks); reflexivity. Qed.

(** Claim C10, as the code has it. [write_tex] has handlers around the
    sinks and around the lookups of properties only. Once the document is
    assembled, [write_tex] returns a status whatever the sinks do: a
    failure to open or write the file, or to copy to the clipboard, is
    turned into the status string. A property that is missing is read as
    absent. But an exception raised while the objects are serialised, the
    materials rendered or the template filled is not caught:
    [write_tex] raises it in turn. *)
Theorem only_sink_failures_are_caught sinks (context : Context.t)
    filepath o w :
  Context.selected_objects context <> [] ->
  (forall s w1,
     assemble context o w = (Ok s, w1) ->
     fst (write_tex sinks context filepath o w) = Ok (status_of sinks o))
  /\ (forall e w1,
        assemble context o w = (Raise e, w1) ->
        write_tex sinks context filepath o w = (Raise e, w1))
  /\ (forall (obj : Object.t) name,
        dict_get name (Object.properties obj) = None ->
        dict_get name (Object.game_properties obj) = None ->
        get_property obj name = []).
Proof.
  intro Hsel.
  assert (Hlen : (List.length (Context.selected_objects context) =? 0)%nat
                 = false).
  { destruct (Context.selected_objects context); [congruence | reflexivity]. }
  repeat split.
  - intros s w1 H. unfold write_tex, status_of. rewrite Hlen.
    unfold mbind at 1. rewrite H.
    destruct (CLIPBOARD_OUTPUT o); simpl.
    + unfold copy_to_clipboard.
      destruct (clipboard_works sinks); reflexivity.
    + apply write_file_status.
  - intros e w1 H. unfold write_tex. rewrite Hlen.
    unfold mbind at 1. rewrite H. reflexivity.
  - intros obj name Hp Hg. unfold get_property.
    rewrite Hp, Hg. reflexivity.
Qed.
End Failures.

(** The theorem at the triangle scene when the file cannot be opened. *)
Lemma only_sink_failures_are_caught_witness :
  Context.selected_objects (Scenes.scene [Scenes.triangle]) <> []
  /\ fst (write_tex {| file := OpenFails; clipboard_works := false |}
            (Scenes.scene [Scenes.triangle]) "out.tex" Scenes.draw_only
            module_loaded)
     = Ok "Failed to write file".
Proof.
  assert (Hsel : Context.selected_objects (Scenes.scene [Scenes.triangle])
                 <> []) by discriminate.
  split; [exact Hsel|].
  destruct (@only_sink_failures_are_caught Dec4.runtime
              {| file := OpenFails; clipboard_works := false |}
              (Scenes.scene [Scenes.triangle])
              "out.tex" Scenes.draw_only module_loaded Hsel)
    as (Hok & _ & _).
  exact (Hok _ _ eq_refl).
Defined.

(** Claim C10 fails as stated: the custom property [style] of the curve
    [odd_style] is the integer 5, [write_object] raises [TypeError] when
    it joins the options, and [write_tex] raises it in turn instead of
    returning a status. *)
Lemma malformed_style_is_fatal :
  dict_get "style" (Object.properties Scenes.odd_style) = Some (PyInt 5)
  /\ write_tex Scenes.disk (Scenes.scene [Scenes.odd_style]) "odd.tex"
       Scenes.draw_only module_loaded
     = (Raise TypeError, module_loaded).
Proof. split; reflexivity. Qed.

(** ** Closed Bezier splines *)

Lemma prefix_cons a p b s :
  String.prefix (String a p) (String b s)
  = if Ascii.ascii_dec a b then String.prefix p s else false.
Proof. reflexivity. Qed.

Lemma prefix_append p : forall s t,
  String.prefix p s = true -> String.prefix p (s ++ t) = true.
Proof.
  induction p as [|a p IH]; intros s t H.
  - destruct (s ++ t); reflexivity.
  - destruct s as [|b s]; simpl in *; [discriminate|].
    destruct (Ascii.ascii_dec a b); [apply IH; exact H | discriminate].
Qed.

Lemma find_empty sub :
  Py.find sub "" = if String.prefix sub "" then 0%Z else (-1)%Z.
Proof. reflexivity. Qed.

Lemma find_cons sub c s :
  Py.find sub (String c s)
  = if String.prefix sub (String c s) then 0%Z
    else if (Py.find sub s <? 0)%Z then (-1)%Z
         else (Py.find sub s + 1)%Z.
Proof. reflexivity. Qed.

Lemma find_found_append sub : forall s t,
  (0 <= Py.find sub s)%Z -> (0 <= Py.find sub (s ++ t))%Z.
Proof.
  induction s as [|c s IH]; intros t H.
  - rewrite find_empty in H.
    destruct (String.prefix sub "") eqn:E; [|lia].
    pose proof (prefix_append sub "" t E) as P.
    change ("" ++ t) with t in *.
    destruct t as [|c u].
    + rewrite find_empty, E. lia.
    + rewrite find_cons, P. lia.
  - rewrite find_cons in H.
    change (String c s ++ t) with (String c (s ++ t)). rewrite find_cons.
    destruct (String.prefix sub (String c s)) eqn:E.
    + change (String c (s ++ t)) with (String c s ++ t).
      rewrite (prefix_append _ _ t E). lia.
    + destruct (String.prefix sub (String c (s ++ t))); [lia|].
      destruct (Py.find sub s <? 0)%Z eqn:F; [lia|].
      apply Z.ltb_ge in F. specialize (IH t F).
      destruct (Py.find sub (s ++ t) <? 0)%Z eqn:G; [|lia].
      apply Z.ltb_lt in G. lia.
Qed.

Lemma prefix_self_append sub t : String.prefix sub (sub ++ t) = true.
Proof.
  induction sub as [|a sub IH]; simpl.
  - destruct t; reflexivity.
  - destruct (Ascii.ascii_dec a a); [exact IH | congruence].
Qed.

Lemma find_found_inside sub t : forall s,
  (0 <= Py.find sub (s ++ sub ++ t))%Z.
Proof.
  induction s as [|c s IH].
  - change ("" ++ sub ++ t) with (sub ++ t).
    pose proof (prefix_self_append sub t) as P.
    destruct (sub ++ t) as [|c u].
    + rewrite find_empty, P. lia.
    + rewrite find_cons, P. lia.
  - change (String c s ++ sub ++ t) with (String c (s ++ sub ++ t)).
    rewrite find_cons.
    destruct (String.prefix sub (String c (s ++ sub ++ t))); [lia|].
    destruct (Py.find sub (s ++ sub ++ t) <? 0)%Z eqn:G; [|lia].
    apply Z.ltb_lt in G. lia.
Qed.

Lemma path_head_append s t :
  path_head s = true -> path_head t = true -> path_head (s ++ t) = true.
Proof.
  intros Hs Ht. destruct s as [|c s]; [exact Ht|].
  unfold path_head in *. simpl Py.is_empty in *.
  rewrite !orb_false_l in Hs. rewrite !orb_false_l.
  apply orb_true_iff in Hs. destruct Hs as [Hs|Hs].
  - apply orb_true_iff in Hs. destruct Hs as [Hs|Hs].
    + rewrite (prefix_append _ _ t Hs). reflexivity.
    + rewrite (prefix_append _ _ t Hs). rewrite orb_true_r. reflexivity.
  - rewrite (prefix_append _ _ t Hs). rewrite !orb_true_r. reflexivity.
Qed.

Lemma path_head_marker ps :
  path_head ps = true -> (0 <= Py.find "cycle" ps)%Z -> has_close_marker ps.
Proof.
  unfold has_close_marker. intros Hh Hf.
  destruct ps as [|c ps]; [simpl in Hf; lia|].
  assert (Hp : String.prefix "cycle" (String c ps) = false).
  { rewrite prefix_cons. destruct (Ascii.ascii_dec "c" c) as [<-|];
      [|reflexivity].
    exfalso. vm_compute in Hh. discriminate Hh. }
  rewrite find_cons in *. rewrite Hp in *.
  destruct (Py.find "cycle" ps <? 0)%Z eqn:G; [lia|].
  apply Z.ltb_ge in G. lia.
Qed.

Section ClosedBezier.
Context {RT : Runtime}.

Lemma segments_append hh knots : forall acc,
  segments hh knots acc = acc ++ segments hh knots "".
Proof.
  unfold segments. generalize (combine hh knots) as l.
  induction l as [|hk l IH]; intro acc; cbn [fold_left].
  - symmetry. apply append_empty_r.
  - rewrite (IH (acc ++ _)), (IH ("" ++ _)).
    rewrite append_empty_l, !append_assoc. reflexivity.
Qed.

Lemma wrapped_fold_append coords : forall (i : nat) acc,
  snd (fold_left
         (fun st c =>
            let i := (fst st + 1)%nat in
            if negb (i mod 3 =? 0)%nat
            then (i, snd st ++ "-- " ++ c)
            else (i, snd st ++ "  -- " ++ c ++ Py.nl ++ "  "))
         coords (i, acc))
  = acc
    ++ snd (fold_left
              (fun st c =>
                 let i := (fst st + 1)%nat in
                 if negb (i mod 3 =? 0)%nat
                 then (i, snd st ++ "-- " ++ c)
                 else (i, snd st ++ "  -- " ++ c ++ Py.nl ++ "  "))
              coords (i, "")).
Proof.
  induction coords as [|c coords IH]; intros i acc;
    cbn [fold_left fst snd]; cbv zeta.
  - symmetry. apply append_empty_r.
  - destruct (negb ((i + 1) mod 3 =? 0)%nat);
      rewrite (IH _ (acc ++ _)), (IH _ ("" ++ _));
      rewrite append_empty_l, !append_assoc; reflexivity.
Qed.

Lemma wrapped_join_append coords acc :
  wrapped_join coords acc = acc ++ wrapped_join coords "".
Proof. apply wrapped_fold_append. Qed.

(** The pairs of handles of a closed spline: the right handle of each
    point with the left handle of the next one. *)
Lemma controls_of_rotated rest : forall (point : BezierPoint.t) last,
  map (fun h => controls_text (fst h) (snd h))
    (nsplit (BezierPoint.handle_right point :: handles_of rest ++ [last]))
  = map (fun leg =>
           controls_text (BezierPoint.handle_right (fst leg)) (snd leg))
      (combine (point :: rest)
         (map BezierPoint.handle_left rest ++ [last])).
Proof.
  induction rest as [|q rest IH]; intros point last.
  - reflexivity.
  - change (handles_of (q :: rest) ++ [last])%list
      with (BezierPoint.handle_left q
              :: BezierPoint.handle_right q :: handles_of rest ++ [last])%list.
    cbn [nsplit map combine app fst snd]. f_equal. apply IH.
Qed.

Lemma combine_map_r {A B C} (f : B -> C) (l : list A) : forall (l' : list B),
  combine l (map f l') = map (fun ab => (fst ab, f (snd ab))) (combine l l').
Proof.
  induction l as [|a l IH]; intros [|b l']; simpl; try reflexivity.
  f_equal. apply IH.
Qed.

Lemma bezier_path_closed (spline : Spline.t) point rest acc :
  Spline.use_cyclic_u spline = true ->
  Spline.bezier_points spline = point :: rest ->
  bezier_path spline acc = Ok (closed_path (point :: rest) acc).
Proof.
  intros Hc Hp. unfold bezier_path, closed_path. rewrite Hc, Hp.
  change (handles_of (point :: rest))
    with (BezierPoint.handle_left point
            :: BezierPoint.handle_right point :: handles_of rest).
  cbn [first knots_of map rbind tl fst snd app rotate_left].
  rewrite controls_of_rotated.
  replace (map BezierPoint.handle_left rest
             ++ [BezierPoint.handle_left point])%list
    with (map BezierPoint.handle_left (rest ++ [point])%list)
    by (rewrite map_app; reflexivity).
  rewrite combine_map_r, map_map. cbn [fst snd].
  unfold knots_of. rewrite map_app. reflexivity.
Qed.

Lemma path_head_knot v t : path_head (knot_text v ++ t) = true.
Proof. reflexivity. Qed.

Lemma path_head_coord point t : path_head (coord_text point ++ t) = true.
Proof. reflexivity. Qed.

(** Appending a path text to a path text. *)
Lemma path_text_append ps t :
  path_head ps = true -> path_head t = true ->
  path_head (ps ++ t) = true
  /\ ((0 <= Py.find "cycle" ps)%Z -> (0 <= Py.find "cycle" (ps ++ t))%Z).
Proof.
  intros Hps Ht. split.
  - apply path_head_append; assumption.
  - apply find_found_append.
Qed.
End ClosedBezier.

Section PathInvariant.
Context {RT : Runtime}.

Lemma find_found_marker a b :
  (0 <= Py.find "cycle" (a ++ "  -- cycle" ++ b))%Z.
Proof.
  change ("  -- cycle" ++ b) with ("  -- " ++ "cycle" ++ b).
  rewrite <- append_assoc. apply find_found_inside.
Qed.

Lemma bezier_path_invariant (spline : Spline.t) ps ps' :
  bezier_path spline ps = Ok ps' ->
  path_head ps = true ->
  Spline.bezier_points spline <> []
  /\ path_head ps' = true
  /\ ((0 <= Py.find "cycle" ps)%Z -> (0 <= Py.find "cycle" ps')%Z)
  /\ (Spline.use_cyclic_u spline = true -> (0 <= Py.find "cycle" ps')%Z).
Proof.
  intros H Hps.
  destruct (Spline.bezier_points spline) as [|point rest] eqn:Hp.
  - exfalso. unfold bezier_path in H. rewrite Hp in H.
    destruct (Spline.use_cyclic_u spline); discriminate H.
  - split; [discriminate|].
    destruct (Spline.use_cyclic_u spline) eqn:Hc.
    + rewrite (bezier_path_closed spline ps Hc Hp) in H.
      assert (E : ps' = closed_path (point :: rest) ps) by congruence.
      subst ps'. clear H. unfold closed_path.
      rewrite segments_append, !append_assoc.
      match goal with |- context [ps ++ ?t] =>
        destruct (path_text_append ps t Hps (path_head_knot _ _))
          as [Hh Hf] end.
      split; [exact Hh|]. split; [exact Hf|]. intros _.
      rewrite <- !append_assoc. rewrite append_assoc.
      apply find_found_marker.
    + unfold bezier_path in H. rewrite Hp, Hc in H.
      cbn [first knots_of map rbind tl fst snd] in H.
      match type of H with Ok ?t = _ =>
        assert (E : ps' = t) by congruence end.
      subst ps'. clear H.
      rewrite segments_append, !append_assoc.
      match goal with |- context [ps ++ ?t] =>
        destruct (path_text_append ps t Hps (path_head_knot _ _))
          as [Hh Hf] end.
      split; [exact Hh|]. split; [exact Hf|]. discriminate.
Qed.
End PathInvariant.

Section PolyInvariant.
Context {RT : Runtime}.

Lemma path_head_plot t : path_head (" plot" ++ t) = true.
Proof.
  unfold path_head. rewrite (prefix_self_append " plot" t).
  rewrite orb_true_r. reflexivity.
Qed.

Lemma path_head_join sep point coords :
  path_head (Py.join sep (coord_text point :: coords)) = true.
Proof. destruct coords; reflexivity. Qed.

Lemma ok_appends ps t ps' :
  Ok (ps ++ t) = Ok ps' -> path_head t = true ->
  exists t, ps' = ps ++ t /\ path_head t = true.
Proof. intros H Ht. exists t. split; [congruence | exact Ht]. Qed.

(** What the explicit branch of a polyline appends. *)
Lemma poly_explicit_appends (wrap_lines cyclic : bool)
    (points : list SplinePoint.t) ps ps' :
  ((coords <- (if cyclic
               then (c0 <- first (map coord_text points) ;;
                     Ok (map coord_text points ++ [c0; cycle_item])%list)
               else Ok (map coord_text points)) ;;
    if wrap_lines
    then (c0 <- first coords ;;
          Ok (wrapped_join (tl coords) (ps ++ c0 ++ Py.nl ++ "  ")))
    else Ok (ps ++ Py.join " -- " coords))%result = Ok ps') ->
  exists t, ps' = ps ++ t /\ path_head t = true.
Proof.
  intro H. destruct points as [|point points].
  - destruct cyclic; [discriminate H|].
    destruct wrap_lines; [discriminate H|].
    cbn [map rbind] in H. exists (Py.join " -- " []).
    split; [congruence | reflexivity].
  - destruct cyclic, wrap_lines; cbn [map rbind first tl app] in H.
    + rewrite wrapped_join_append, !append_assoc in H.
      eapply ok_appends; [exact H | apply path_head_coord].
    + eapply ok_appends; [exact H | apply path_head_join].
    + rewrite wrapped_join_append, !append_assoc in H.
      eapply ok_appends; [exact H | apply path_head_coord].
    + eapply ok_appends; [exact H | apply path_head_join].
Qed.

Lemma poly_path_invariant o (obj : Object.t) (spline : Spline.t) ps ps' :
  wrap_keeps_paths ->
  poly_path o obj spline ps = Ok ps' ->
  path_head ps = true ->
  path_head ps' = true
  /\ ((0 <= Py.find "cycle" ps)%Z -> (0 <= Py.find "cycle" ps')%Z).
Proof.
  intros Hwrap H Hps. unfold poly_path in H.
  destruct (USE_PLOTPATH o).
  - match type of H with (rbind ?r _ = _) =>
      destruct r as [poptstr|e]; [|discriminate H] end.
    cbn [rbind] in H.
    match type of H with
      Ok (if _ then Py.join Py.nl (wrap ?t) else _) = _ =>
        assert (Ht : path_head t = true
                     /\ ((0 <= Py.find "cycle" ps)%Z ->
                         (0 <= Py.find "cycle" t)%Z))
    end.
    { destruct (Spline.use_cyclic_u spline); rewrite ?append_assoc;
        apply path_text_append; try exact Hps; apply path_head_plot. }
    destruct Ht as [Hh Hf].
    destruct (WRAP_LINES o); injection H as <-.
    + split.
      * apply Hwrap. exact Hh.
      * intro F. apply Hwrap. apply Hf. exact F.
    + split; assumption.
  - apply poly_explicit_appends in H. destruct H as (t & -> & Ht).
    apply path_text_append; assumption.
Qed.
End PolyInvariant.

Section ClosedAndFilled.
Context {RT : Runtime}.

Lemma spline_path_invariant o (obj : Object.t) (spline : Spline.t) ps ps' :
  wrap_keeps_paths ->
  spline_path o obj spline ps = Ok ps' ->
  path_head ps = true ->
  path_head ps' = true
  /\ ((0 <= Py.find "cycle" ps)%Z -> (0 <= Py.find "cycle" ps')%Z)
  /\ (closed_bezier spline ->
      (0 <= Py.find "cycle" ps')%Z /\ Spline.bezier_points spline <> []).
Proof.
  intros Hwrap H Hps. unfold spline_path in H.
  destruct (String.eqb_spec (Spline.type spline) "BEZIER") as [Hb|Hb].
  - destruct (bezier_path_invariant spline ps H Hps)
      as (Hne & Hh & Hf & Hc).
    split; [exact Hh|]. split; [exact Hf|].
    intros [_ Hcyc]. split; [apply Hc; exact Hcyc | exact Hne].
  - assert (Hnot : closed_bezier spline ->
                   (0 <= Py.find "cycle" ps')%Z
                   /\ Spline.bezier_points spline <> []).
    { intros [Hty _]. contradiction. }
    destruct (String.eqb (Spline.type spline) "POLY").
    + destruct (poly_path_invariant o obj spline ps Hwrap H Hps)
        as [Hh Hf].
      split; [exact Hh | split; [exact Hf | exact Hnot]].
    + injection H as <-.
      split; [exact Hps | split; [intro F; exact F | exact Hnot]].
Qed.

Lemma splines_path_invariant o (obj : Object.t) :
  wrap_keeps_paths ->
  forall splines ps ps',
    splines_path o obj splines ps = Ok ps' ->
    path_head ps = true ->
    path_head ps' = true
    /\ ((0 <= Py.find "cycle" ps)%Z -> (0 <= Py.find "cycle" ps')%Z)
    /\ (forall spline,
          In spline splines -> closed_bezier spline ->
          (0 <= Py.find "cycle" ps')%Z
          /\ Spline.bezier_points spline <> []).
Proof.
  intro Hwrap. induction splines as [|spline rest IH]; intros ps ps' H Hps.
  - simpl in H. injection H as <-.
    split; [exact Hps|]. split; [intro F; exact F|]. intros spline [].
  - simpl in H.
    destruct (spline_path o obj spline ps) as [ps1|e] eqn:E;
      [|discriminate H].
    simpl in H.
    destruct (spline_path_invariant o obj spline ps Hwrap E Hps)
      as (Hh1 & Hf1 & Hc1).
    destruct (IH ps1 ps' H Hh1) as (Hh & Hf & Hc).
    split; [exact Hh|]. split; [intro F; apply Hf, Hf1, F|].
    intros sp [<-|Hin] Hsp.
    + destruct (Hc1 Hsp) as [F Hne]. split; [apply Hf, F | exact Hne].
    + apply Hc; assumption.
Qed.

Lemma count_fill_app a b :
  count_fill (a ++ b) = (count_fill a + count_fill b)%nat.
Proof. unfold count_fill. rewrite filter_app, length_app. reflexivity. Qed.

Lemma derived_options_fill o (obj : Object.t) ps :
  FILL_CLOSED_CURVE o = true ->
  has_close_marker ps ->
  count_fill (derived_options o obj ps) = 1%nat.
Proof.
  unfold derived_options, has_close_marker. intros -> Hm.
  apply Z.ltb_lt in Hm. rewrite Hm.
  destruct (DRAW_CURVE o), (TRANSFORM_CURVE o); try reflexivity;
    destruct (fne (Vec.x (Object.location obj)) 0),
             (fne (Vec.y (Object.location obj)) 0),
             (fne (Vec.z (Object.rotation_euler obj)) 0),
             (fne (Vec.x (Object.scale obj)) 1),
             (fne (Vec.y (Object.scale obj)) 1);
    reflexivity.
Qed.

Lemma compose_options_ok o (obj : Object.t) ps w options w' :
  compose_options o obj ps w = (Ok options, w') ->
  exists matopts,
    options
    = (derived_options o obj ps ++ matopts
         ++ get_property obj "style")%list
    /\ (matopts = []
        \/ exists material, matopts = [PyStr (registered_name material)]).
Proof.
  unfold compose_options. intro H.
  apply mbind_ok in H. destruct H as (matopts & w1 & Hm & H).
  unfold mret in H. injection H as <- _.
  exists matopts. split; [symmetry; apply app_assoc|].
  unfold material_options in Hm.
  destruct (EXPORT_MATERIALS o);
    [|unfold mret in Hm; injection Hm as <- _; left; reflexivity].
  destruct (first_material _) as [mat|];
    [|unfold mret in Hm; injection Hm as <- _; left; reflexivity].
  apply mbind_ok in Hm. destruct Hm as (name & w2 & Hg & Hm).
  unfold mret in Hm. injection Hm as <- _.
  simpl in Hg. unfold mbind, register, mret in Hg. injection Hg as <- _.
  right. exists mat. reflexivity.
Qed.

(** Claim C6, as the code has it. For a closed Bezier spline of a curve
    whose splines are serialised without an exception, the spline has a
    first control point and its text is the closed path: the first knot,
    one segment per control point with the handles rotated by one
    position (out of each point through its right handle, into the next
    point through its left handle) up to a copy of the first knot, and
    the close marker; the path text of the curve holds the close marker
    after its start. With [FILL_CLOSED_CURVE] set the options derived
    from the flags and the transform hold the fill flag exactly once; the
    name of the material and the custom style tokens follow them as they
    are, so the options list holds the fill flag once more for each of
    those that is itself [fill]. *)
Theorem closed_bezier_closes_and_fills_once (obj : Object.t) o spline ps :
  wrap_keeps_paths ->
  In spline (Curve.splines (Object.data obj)) ->
  closed_bezier spline ->
  splines_path o obj (Curve.splines (Object.data obj)) "" = Ok ps ->
  (exists point rest,
     Spline.bezier_points spline = point :: rest
     /\ forall acc,
         spline_path o obj spline acc
         = Ok (closed_path (point :: rest) acc))
  /\ has_close_marker ps
  /\ (FILL_CLOSED_CURVE o = true ->
      count_fill (derived_options o obj ps) = 1%nat
      /\ forall w options w',
          compose_options o obj ps w = (Ok options, w') ->
          exists matopts,
            options
            = (derived_options o obj ps ++ matopts
                 ++ get_property obj "style")%list
            /\ (matopts = []
                \/ exists material,
                    matopts = [PyStr (registered_name material)])
            /\ count_fill options
               = (1 + count_fill matopts
                  + count_fill (get_property obj "style"))%nat).
Proof.
  intros Hwrap Hin Hclosed Hps.
  destruct (splines_path_invariant o obj Hwrap _ _ Hps eq_refl)
    as (Hh & _ & Hc).
  destruct (Hc spline Hin Hclosed) as [Hfound Hne].
  assert (Hmarker : has_close_marker ps)
    by (apply path_head_marker; assumption).
  split; [|split; [exact Hmarker|]].
  - destruct (Spline.bezier_points spline) as [|point rest] eqn:Hp;
      [congruence|].
    exists point, rest. split; [reflexivity|]. intro acc.
    destruct Hclosed as [Hty Hcyc]. unfold spline_path.
    rewrite Hty. cbn [String.eqb]. 
    replace (String.eqb "BEZIER" "BEZIER") with true by reflexivity.
    apply bezier_path_closed; assumption.
  - intro Hfill.
    pose proof (derived_options_fill o obj Hfill Hmarker) as Hone.
    split; [exact Hone|].
    intros w options w' H. apply compose_options_ok in H.
    destruct H as (matopts & -> & Hmat).
    exists matopts. split; [reflexivity|]. split; [exact Hmat|].
    rewrite !count_fill_app, Hone. lia.
Qed.
End ClosedAndFilled.

(** The wrap of the decimal runtime returns its text. *)
Lemma dec4_wrap_keeps_paths : @wrap_keeps_paths Dec4.runtime.
Proof. intro text. split; intro H; exact H. Qed.

(** The theorem at the closed version of the arc, with
    [FILL_CLOSED_CURVE] set. *)
Lemma closed_bezier_closes_and_fills_once_witness :
  In (Scenes.arc_spline true) (Curve.splines (Object.data Scenes.loop))
  /\ closed_bezier (Scenes.arc_spline true)
  /\ splines_path Scenes.fill_closed Scenes.loop
       (Curve.splines (Object.data Scenes.loop)) ""
     = Ok Scenes.loop_path
  /\ has_close_marker Scenes.loop_path
  /\ count_fill (derived_options Scenes.fill_closed Scenes.loop
                   Scenes.loop_path)
     = 1%nat.
Proof.
  assert (Hin : In (Scenes.arc_spline true)
                  (Curve.splines (Object.data Scenes.loop)))
    by (left; reflexivity).
  assert (Hclosed : closed_bezier (Scenes.arc_spline true))
    by (split; reflexivity).
  assert (Hps : splines_path Scenes.fill_closed Scenes.loop
                  (Curve.splines (Object.data Scenes.loop)) ""
                = Ok Scenes.loop_path) by reflexivity.
  destruct (closed_bezier_closes_and_fills_once Scenes.loop
              Scenes.fill_closed dec4_wrap_keeps_paths Hin Hclosed Hps)
    as (_ & Hmarker & Hfill).
  split; [exact Hin|]. split; [exact Hclosed|]. split; [exact Hps|].
  split; [exact Hmarker|].
  exact (proj1 (Hfill eq_refl)).
Defined.

(** Claim C6 fails as stated: the closed Bezier curve [filled_loop]
    carries the custom style token [fill]; with [FILL_CLOSED_CURVE] set
    its options list is [draw], [fill], [fill], which holds the fill flag
    twice, and so does the path statement. *)
Lemma custom_fill_token_repeats_the_fill_flag :
  closed_bezier (Scenes.arc_spline true)
  /\ FILL_CLOSED_CURVE Scenes.fill_closed = true
  /\ get_property Scenes.filled_loop "style" = [PyStr "fill"]
  /\ splines_path Scenes.fill_closed Scenes.filled_loop
       (Curve.splines (Object.data Scenes.filled_loop)) ""
     = Ok Scenes.loop_path
  /\ fst (compose_options Scenes.fill_closed Scenes.filled_loop
            Scenes.loop_path module_loaded)
     = Ok [PyStr "draw"; PyStr "fill"; PyStr "fill"]
  /\ count_fill [PyStr "draw"; PyStr "fill"; PyStr "fill"] = 2%nat
  /\ write_object Scenes.filled_loop [] Scenes.fill_closed module_loaded
     = (Ok Scenes.filled_loop_code, module_loaded).
Proof. repeat split; reflexivity. Qed.

(** * Further properties of the exporter *)

(** ** The comparison *)

Section Comparison.
Context {RT : Runtime}.

Ltac q_absurd :=
  exfalso;
  match goal with
  | H : (?x == ?y)%Q, L : (?x < ?y)%Q |- _ =>
      rewrite H in L; exact (Qlt_irrefl _ L)
  | H : (?x == ?y)%Q, L : (?y < ?x)%Q |- _ =>
      rewrite H in L; exact (Qlt_irrefl _ L)
  | L1 : (?x < ?y)%Q, L2 : (?y < ?x)%Q |- _ =>
      exact (Qlt_irrefl _ (Qlt_trans _ _ _ L1 L2))
  end.

(** [cmp] is a three-way comparison of the values of two floats: it is
    [-1], [0] or [1] as the first is below, equal to or above the second,
    and swapping the arguments negates it. *)
Theorem cmp_three_way (a b : float) :
  (cmp a b = (-1)%Z <-> (fval a < fval b)%Q)
  /\ (cmp a b = 0%Z <-> (fval a == fval b)%Q)
  /\ (cmp a b = 1%Z <-> (fval b < fval a)%Q)
  /\ cmp b a = (- cmp a b)%Z.
Proof.
  unfold cmp, fgt.
  destruct (flt a b) eqn:Eab; destruct (flt b a) eqn:Eba; simpl.
  - apply flt_spec in Eab. apply flt_spec in Eba.
    exfalso. exact (Qlt_irrefl _ (Qlt_trans _ _ _ Eab Eba)).
  - apply flt_spec in Eab.
    repeat split; intros;
      first [discriminate | assumption | reflexivity | q_absurd].
  - apply flt_spec in Eba.
    repeat split; intros;
      first [discriminate | assumption | reflexivity | q_absurd].
  - assert (Hab : ~ (fval a < fval b)%Q).
    { intro H. apply flt_spec in H. congruence. }
    assert (Hba : ~ (fval b < fval a)%Q).
    { intro H. apply flt_spec in H. congruence. }
    repeat split; intros;
      first [discriminate | contradiction | reflexivity | idtac].
    apply Qle_antisym; apply Qnot_lt_le; assumption.
Qed.
End Comparison.

(** ** Splitting a sequence *)

(** The second and third example of the docstring of [nsplit]. *)
Example nsplit_by_three :
  nsplit_by (Py.chars "aabbcc") 3
  = [["a"; "a"; "b"]; ["b"; "c"; "c"]]%char.
Proof. reflexivity. Qed.

Example nsplit_by_four :
  nsplit_by (Py.chars "aabbcc") 4 = [["a"; "a"; "b"; "b"]]%char.
Proof. reflexivity. Qed.

Lemma nsplit_fuel_pieces {A} (n : nat) :
  (0 < n)%nat ->
  forall fuel (seq : list A),
    (List.length seq <= fuel)%nat ->
    Forall (fun piece => List.length piece = n) (nsplit_fuel fuel n seq)
    /\ exists rest,
        seq = (List.concat (nsplit_fuel fuel n seq) ++ rest)%list
        /\ (List.length rest < n)%nat.
Proof.
  intros Hn. induction fuel as [|fuel IH]; intros seq Hlen.
  - destruct seq; [|simpl in Hlen; lia]. simpl. split; [constructor|].
    exists []. split; [reflexivity | exact Hn].
  - simpl. destruct (n =? 0)%nat eqn:E0; [apply Nat.eqb_eq in E0; lia|].
    simpl. destruct (List.length seq <? n)%nat eqn:E.
    + apply Nat.ltb_lt in E. split; [constructor|].
      exists seq. split; [reflexivity | exact E].
    + apply Nat.ltb_ge in E.
      destruct (IH (skipn n seq)) as (Hpieces & rest & Hseq & Hrest).
      { rewrite length_skipn. lia. }
      split.
      * constructor; [|exact Hpieces]. rewrite length_firstn. lia.
      * exists rest. split; [|exact Hrest].
        simpl. rewrite <- app_assoc, <- Hseq. symmetry.
        apply firstn_skipn.
Qed.

Lemma nsplit_fuel_pairs {A} : forall fuel (seq : list A),
  (List.length seq <= fuel)%nat ->
  nsplit_fuel fuel 2 seq = map (fun p => [fst p; snd p]) (nsplit seq).
Proof.
  induction fuel as [|fuel IH]; intros seq Hlen.
  - destruct seq; [reflexivity | simpl in Hlen; lia].
  - destruct seq as [|a [|b rest]]; try reflexivity.
    simpl. f_equal. apply IH. simpl in Hlen. lia.
Qed.

(** [nsplit] cuts a sequence into consecutive pieces of [n] elements and
    discards what is left at the end, fewer than [n] elements; with [n]
    zero it returns no piece. The pairs that the exporter takes from the
    handles are the pieces for [n = 2]. *)
Theorem nsplit_by_pieces {A} (seq : list A) (n : nat) :
  nsplit_by seq 0 = []
  /\ nsplit_by seq 2 = map (fun p => [fst p; snd p]) (nsplit seq)
  /\ ((0 < n)%nat ->
      Forall (fun piece => List.length piece = n) (nsplit_by seq n)
      /\ exists rest,
          seq = (List.concat (nsplit_by seq n) ++ rest)%list
          /\ (List.length rest < n)%nat).
Proof.
  split; [|split].
  - unfold nsplit_by. destruct (List.length seq); reflexivity.
  - apply nsplit_fuel_pairs. apply Nat.le_refl.
  - intro Hn. apply nsplit_fuel_pieces; [exact Hn | apply Nat.le_refl].
Qed.

(** The theorem at the seven handles 1 to 7 cut by three. *)
Lemma nsplit_by_pieces_witness :
  (0 < 3)%nat
  /\ nsplit_by [1; 2; 3; 4; 5; 6; 7]%nat 3 = [[1; 2; 3]; [4; 5; 6]]%nat
  /\ Forall (fun piece => List.length piece = 3%nat)
       (nsplit_by [1; 2; 3; 4; 5; 6; 7]%nat 3).
Proof.
  assert (H : (0 < 3)%nat) by lia.
  split; [exact H|]. split; [reflexivity|].
  exact (proj1 (proj2 (proj2
                         (nsplit_by_pieces [1; 2; 3; 4; 5; 6; 7]%nat 3)) H)).
Defined.

(** ** Names for TikZ *)

Lemma is_empty_lstrip s : Py.is_empty (Py.lstrip s) = blank s.
Proof.
  unfold blank. induction s as [|c s IH]; simpl.
  - reflexivity.
  - destruct (Py.isspace c); [exact IH | reflexivity].
Qed.

Lemma blank_rstrip s : blank (Py.rstrip s) = blank s.
Proof.
  unfold blank, Py.chars. induction s as [|c s IH].
  - reflexivity.
  - cbn [Py.rstrip]. cbv zeta.
    destruct (Py.rstrip s) as [|d r] eqn:E.
    + cbn [Py.is_empty andb list_ascii_of_string forallb].
      cbn [list_ascii_of_string forallb] in IH. rewrite <- IH.
      destruct (Py.isspace c) eqn:Ec; cbn [list_ascii_of_string forallb];
        rewrite ?Ec; reflexivity.
    + cbn [Py.is_empty andb list_ascii_of_string forallb].
      cbn [list_ascii_of_string forallb] in IH. rewrite <- IH.
      reflexivity.
Qed.

Lemma is_empty_strip s : Py.is_empty (Py.strip s) = blank s.
Proof. unfold Py.strip. rewrite is_empty_lstrip. apply blank_rstrip. Qed.

Lemma transliterate_cases (c : ascii) :
  (reserved c = true /\ reserved (transliterate c) = false
   /\ Py.isspace c = false /\ Py.isspace (transliterate c) = false)
  \/ (reserved c = false /\ transliterate c = c).
Proof.
  unfold transliterate, reserved.
  destruct (Ascii.eqb_spec c "\"); [subst; left; repeat split|].
  destruct (Ascii.eqb_spec c ","); [subst; left; repeat split|].
  destruct (Ascii.eqb_spec c ":"); [subst; left; repeat split|].
  destruct (Ascii.eqb_spec c "."); [subst; left; repeat split|].
  right. split; reflexivity.
Qed.

Lemma transliterate_isspace c :
  Py.isspace (transliterate c) = Py.isspace c.
Proof.
  destruct (transliterate_cases c) as [(_ & _ & H1 & H2)|[_ H]].
  - congruence.
  - rewrite H. reflexivity.
Qed.

Lemma transliterate_idempotent c :
  transliterate (transliterate c) = transliterate c.
Proof.
  destruct (transliterate_cases c) as [(_ & H & _)|[_ H]].
  - destruct (transliterate_cases (transliterate c)) as [(H' & _)|[_ H']].
    + congruence.
    + exact H'.
  - rewrite H. exact H.
Qed.

Lemma transliterate_not_reserved c : reserved (transliterate c) = false.
Proof.
  destruct (transliterate_cases c) as [(_ & H & _)|[H H']].
  - exact H.
  - rewrite H'. exact H.
Qed.

Lemma blank_translate s : blank (translate transliterate s) = blank s.
Proof.
  unfold blank, Py.chars. induction s as [|c s IH]; simpl.
  - reflexivity.
  - rewrite transliterate_isspace, IH. reflexivity.
Qed.

Lemma tikzify_translate s :
  tikzify s = if blank s then "" else translate transliterate s.
Proof.
  unfold tikzify. rewrite is_empty_strip.
  destruct (blank s); simpl; [reflexivity | apply mreplace_translate].
Qed.

(** A name made by [tikzify] holds none of the reserved characters [\],
    comma, colon and period; it has the length of the name it was made
    from, unless that name is blank, and [tikzify] leaves it as it is. *)
Theorem tikzify_safe_idempotent (s : string) :
  Forall (fun c => reserved c = false) (Py.chars (tikzify s))
  /\ tikzify (tikzify s) = tikzify s
  /\ String.length (tikzify s)
     = if blank s then 0%nat else String.length s.
Proof.
  rewrite (tikzify_translate (tikzify s)), (tikzify_translate s).
  destruct (blank s) eqn:Hb.
  - repeat split. constructor.
  - rewrite blank_translate, Hb. repeat split.
    + clear Hb. induction s as [|c s IH]; simpl; constructor.
      * apply transliterate_not_reserved.
      * exact IH.
    + clear Hb. induction s as [|c s IH]; simpl.
      * reflexivity.
      * rewrite transliterate_idempotent, IH. reflexivity.
    + clear Hb. induction s as [|c s IH]; simpl; congruence.
Qed.

(** ** The material table, continued *)

Lemma dict_get_set {V} k k' (v : V) d :
  dict_get k (dict_set k' v d)
  = if String.eqb k k' then Some v else dict_get k d.
Proof.
  induction d as [|[k0 v0] d IH]; simpl.
  - reflexivity.
  - destruct (String.eqb_spec k' k0) as [->|Hk0]; simpl.
    + destruct (String.eqb k k0); reflexivity.
    + rewrite IH.
      destruct (String.eqb_spec k k0) as [->|Hk].
      * destruct (String.eqb_spec k0 k'); [congruence | reflexivity].
      * reflexivity.
Qed.

Section LastRegistration.
Context {RT : Runtime}.

Lemma register_all_get key materials : forall w,
  dict_get key (used_materials (snd (register_all materials w)))
  = latest_from key materials (dict_get key (used_materials w)).
Proof.
  induction materials as [|m rest IH]; intro w; simpl.
  - reflexivity.
  - unfold mbind, register. simpl. rewrite IH. simpl.
    rewrite dict_get_set. reflexivity.
Qed.

Lemma table_after_keys_snoc materials material :
  dict_keys (table_after (materials ++ [material]))
  = see (dict_keys (table_after materials)) (registered_name material).
Proof.
  unfold table_after. rewrite !register_all_keys.
  rewrite map_app, fold_left_app. reflexivity.
Qed.

(** Under each name the material table holds the material that was
    registered last under it: a later registration of the name replaces
    the material and keeps the place of the name. In particular the
    table answers the name of the material registered last with that
    material, whatever was registered before; registering a material
    under a name that the table holds leaves the names and their order
    as they are, and registering it under a new name adds the name at
    the end. *)
Theorem last_registration_wins (materials : list Material.t) :
  (forall key, dict_get key (table_after materials) = latest key materials)
  /\ (forall material,
        dict_get (registered_name material)
          (table_after (materials ++ [material]))
        = Some material)
  /\ (forall material,
        In (registered_name material) (dict_keys (table_after materials)) ->
        dict_keys (table_after (materials ++ [material]))
        = dict_keys (table_after materials))
  /\ (forall material,
        ~ In (registered_name material)
            (dict_keys (table_after materials)) ->
        dict_keys (table_after (materials ++ [material]))
        = (dict_keys (table_after materials)
             ++ [registered_name material])%list).
Proof.
  assert (H : forall ms key, dict_get key (table_after ms) = latest key ms).
  { intros ms key. unfold table_after, latest.
    rewrite register_all_get. reflexivity. }
  split; [apply H|]. split; [|split].
  - intro material. rewrite H. unfold latest, latest_from.
    rewrite fold_left_app. simpl. rewrite String.eqb_refl. reflexivity.
  - intros material Hin. rewrite table_after_keys_snoc. unfold see.
    apply existsb_eqb_In in Hin. rewrite Hin. reflexivity.
  - intros material Hout. rewrite table_after_keys_snoc. unfold see.
    destruct (existsb (String.eqb (registered_name material))
                (dict_keys (table_after materials))) eqn:E;
      [|reflexivity].
    apply existsb_eqb_In in E. contradiction.
Qed.
End LastRegistration.

(** The theorem at a second registration of the name [red], after
    [glass]: the names stay in the order [red], [glass*01], and the table
    answers [red] with the material registered last. *)
Lemma last_registration_wins_witness :
  In (registered_name Scenes.red_again)
    (dict_keys (table_after [Scenes.red; Scenes.glass]))
  /\ dict_keys (table_after [Scenes.red; Scenes.glass; Scenes.red_again])
     = ["red"; "glass*01"]
  /\ dict_get "red"
       (table_after [Scenes.red; Scenes.glass; Scenes.red_again])
     = Some Scenes.red_again.
Proof.
  assert (Hin : In (registered_name Scenes.red_again)
                  (dict_keys (table_after [Scenes.red; Scenes.glass])))
    by (left; reflexivity).
  destruct (@last_registration_wins Dec4.runtime [Scenes.red; Scenes.glass])
    as (_ & Hget & Hkeep & _).
  split; [exact Hin|]. split.
  - exact (Hkeep Scenes.red_again Hin).
  - exact (Hget Scenes.red_again).
Defined.

(** ** Material references *)

Section MaterialReferences.
Context {RT : Runtime}.

Lemma extends_keeps_key w w' key :
  extends w w' ->
  In key (dict_keys (used_materials w)) ->
  In key (dict_keys (used_materials w')).
Proof.
  intros [added H] Hin. rewrite H. apply in_or_app. left. exact Hin.
Qed.

Lemma compose_options_registers o (obj : Object.t) ps w material :
  EXPORT_MATERIALS o = true ->
  first_material (slots obj) = Some material ->
  compose_options o obj ps w
  = (Ok (derived_options o obj ps
           ++ [PyStr (registered_name material)]
           ++ get_property obj "style")%list,
     {| used_materials :=
          dict_set (registered_name material) material (used_materials w);
        sink_log := sink_log w |}).
Proof.
  intros He Hm. unfold compose_options, material_options.
  rewrite He. fold (slots obj). rewrite Hm.
  unfold mbind, get_material, register, mret. simpl.
  rewrite <- app_assoc. reflexivity.
Qed.

(** What a successful [write_object] did for a curve with a path text:
    the world it leaves is the one that [compose_options] left. *)
Lemma write_object_curve_ok (obj : Object.t) empties o w out w' ps :
  write_object obj empties o w = (Ok out, w') ->
  Object.type obj = "CURVE" ->
  splines_path o obj (Curve.splines (Object.data obj)) "" = Ok ps ->
  ps <> "" ->
  exists options optstr,
    compose_options o obj ps w = (Ok options, w')
    /\ join_vals "," options = Ok optstr.
Proof.
  intros H Hty Hps Hne. unfold write_object in H. rewrite Hty in H.
  cbn [String.eqb Ascii.eqb Bool.eqb orb negb andb] in H.
  replace (String.eqb "CURVE" "CURVE") with true in H by reflexivity.
  cbn [orb negb] in H. rewrite Hps in H.
  unfold mbind at 1 in H. unfold lift at 1 in H.
  destruct ps as [|c ps]; [congruence|]. cbn [Py.is_empty] in H.
  apply mbind_ok in H. destruct H as (options & w1 & Hopts & H).
  apply mbind_ok in H. destruct H as (optstr & w2 & Hjoin & H).
  apply lift_ok in Hjoin. destruct Hjoin as [Hjoin ->].
  exists options, optstr. split; [|exact Hjoin].
  rewrite Hopts. f_equal.
  match type of H with
  | (if ?b then _ else _) _ = _ => destruct b
  end; unfold mret in H; congruence.
Qed.

Lemma write_objects_registers objects : forall empties o code w out w',
  write_objects objects empties o code w = (Ok out, w') ->
  EXPORT_MATERIALS o = true ->
  forall (obj : Object.t) ps material,
    In obj objects ->
    Object.type obj = "CURVE" ->
    splines_path o obj (Curve.splines (Object.data obj)) "" = Ok ps ->
    ps <> "" ->
    first_material (slots obj) = Some material ->
    In (registered_name material) (dict_keys (used_materials w')).
Proof.
  induction objects as [|first rest IH];
    intros empties o code w out w' H He obj ps material Hin Hty Hps Hne Hm.
  - destruct Hin.
  - simpl in H. apply mbind_ok in H. destruct H as (s & w1 & Hobj & H).
    destruct Hin as [<-|Hin].
    + pose proof (grows_write_objects rest empties o (code ++ s) w1) as Hg.
      rewrite H in Hg. simpl in Hg.
      eapply extends_keeps_key; [exact Hg|].
      edestruct write_object_curve_ok as (options & optstr & Hopts & _);
        [exact Hobj | exact Hty | exact Hps | exact Hne |].
      erewrite compose_options_registers in Hopts by eassumption.
      inversion Hopts; subst. simpl.
      rewrite dict_keys_set. apply see_In. right. reflexivity.
    + eapply IH; eassumption.
Qed.

(** With [EXPORT_MATERIALS] set, no path statement refers to a material
    that the material table lacks: when the objects have been written,
    the table holds the name of the first material of every curve that
    got a path statement, and that name is among the options of the
    statement. *)
Theorem material_references_are_registered objects empties o code w out w' :
  write_objects objects empties o code w = (Ok out, w') ->
  EXPORT_MATERIALS o = true ->
  forall (obj : Object.t) ps material,
    In obj objects ->
    Object.type obj = "CURVE" ->
    splines_path o obj (Curve.splines (Object.data obj)) "" = Ok ps ->
    ps <> "" ->
    first_material (slots obj) = Some material ->
    In (registered_name material) (dict_keys (used_materials w'))
    /\ forall w0,
        exists options w1,
          compose_options o obj ps w0 = (Ok options, w1)
          /\ In (PyStr (registered_name material)) options.
Proof.
  intros H He obj ps material Hin Hty Hps Hne Hm. split.
  - eapply write_objects_registers; eassumption.
  - intro w0. eexists. eexists. split.
    + apply compose_options_registers; eassumption.
    + apply in_or_app. right. left. reflexivity.
Qed.
End MaterialReferences.

(** The theorem at the export of the curve painted with [red]. *)
Lemma material_references_are_registered_witness :
  EXPORT_MATERIALS Scenes.with_materials = true
  /\ first_material (slots Scenes.red_segment) = Some Scenes.red
  /\ In "red"
       (dict_keys
          (used_materials
             (snd (write_objects [Scenes.red_segment] []
                     Scenes.with_materials "" module_loaded)))).
Proof.
  split; [reflexivity|]. split; [reflexivity|].
  refine (proj1 (@material_references_are_registered Dec4.runtime
                   [Scenes.red_segment] [] Scenes.with_materials ""
                   module_loaded _ _ eq_refl eq_refl
                   Scenes.red_segment _ Scenes.red
                   (or_introl eq_refl) eq_refl eq_refl _ eq_refl)).
  discriminate.
Defined.

(** ** What the export leaves alone *)

Section Frame.
Context {RT : Runtime}.
Variable R : World -> World -> Prop.
Hypothesis R_refl : forall w, R w w.
Hypothesis R_trans : forall w1 w2 w3, R w1 w2 -> R w2 w3 -> R w1 w3.

Lemma respects_mret {A} (a : A) : respects R (mret a).
Proof. intro w. apply R_refl. Qed.

Lemma respects_lift {A} (r : result A) : respects R (lift r).
Proof. intro w. apply R_refl. Qed.

Lemma respects_read_materials : respects R read_materials.
Proof. intro w. apply R_refl. Qed.

Lemma respects_mbind {A B} (c : M A) (k : A -> M B) :
  respects R c -> (forall a, respects R (k a)) -> respects R (mbind c k).
Proof.
  intros Hc Hk w. unfold mbind. specialize (Hc w).
  destruct (c w) as [[a|e] w1]; simpl in Hc.
  - eapply R_trans; [exact Hc | apply Hk].
  - exact Hc.
Qed.

Lemma respects_if {A} (b : bool) (c1 c2 : M A) :
  respects R c1 -> respects R c2 -> respects R (if b then c1 else c2).
Proof. destruct b; auto. Qed.

Variable o : Options.
Hypothesis material_options_respects :
  forall obj, respects R (material_options o obj).

Lemma respects_compose_options obj ps : respects R (compose_options o obj ps).
Proof.
  unfold compose_options.
  apply respects_mbind; [apply material_options_respects|].
  intro. apply respects_mret.
Qed.

Lemma respects_write_object obj empties :
  respects R (write_object obj empties o).
Proof.
  unfold write_object. cbv zeta.
  apply respects_if; [apply respects_mret|].
  apply respects_if; [|apply respects_if; apply respects_mret].
  apply respects_mbind; [apply respects_lift|]. intro ps.
  apply respects_if; [apply respects_mret|].
  apply respects_mbind; [apply respects_compose_options|]. intro options.
  apply respects_mbind; [apply respects_lift|]. intro optstr.
  apply respects_if; apply respects_mret.
Qed.

Lemma respects_write_objects objects empties : forall code,
  respects R (write_objects objects empties o code).
Proof.
  induction objects as [|obj rest IH]; intro code; simpl.
  - apply respects_mret.
  - apply respects_mbind; [apply respects_write_object | intro; apply IH].
Qed.

Lemma respects_assemble context : respects R (assemble context o).
Proof.
  unfold assemble. cbv zeta.
  apply respects_mbind; [apply respects_write_objects|]. intro code.
  apply respects_mbind; [|intro; apply respects_lift].
  apply respects_if; [|apply respects_mret].
  apply respects_mbind; [apply respects_read_materials|].
  intro. apply respects_lift.
Qed.
End Frame.

Section FrameOfExport.
Context {RT : Runtime}.

Lemma same_sinks_material_options o obj :
  respects same_sinks (material_options o obj).
Proof.
  unfold material_options.
  destruct (EXPORT_MATERIALS o); [|intro w; reflexivity].
  destruct (first_material _); intro w; reflexivity.
Qed.

Lemma same_table_material_options o obj :
  EXPORT_MATERIALS o = false ->
  respects same_table (material_options o obj).
Proof. unfold material_options. intros -> w. reflexivity. Qed.

Lemma same_table_trans (w1 w2 w3 : World) :
  same_table w1 w2 -> same_table w2 w3 -> same_table w1 w3.
Proof. unfold same_table. congruence. Qed.

Lemma same_sinks_trans (w1 w2 w3 : World) :
  same_sinks w1 w2 -> same_sinks w2 w3 -> same_sinks w1 w3.
Proof. unfold same_sinks. congruence. Qed.

(** The assembly of the document never touches a sink, whether it ends
    well or raises. Without [EXPORT_MATERIALS] the whole export leaves
    the material table as it found it, and the material block of the
    document it assembles is empty. *)
Theorem export_frame sinks (context : Context.t) filepath o w :
  same_sinks w (snd (assemble context o w))
  /\ (EXPORT_MATERIALS o = false ->
      same_table w (snd (write_tex sinks context filepath o w))
      /\ forall doc w',
          assemble context o w = (Ok doc, w') ->
          exists code,
            format (template_of o)
              (templatevars_of o (Context.scene context) code "")
            = Ok doc).
Proof.
  split.
  - apply (respects_assemble (R := same_sinks)).
    + reflexivity.
    + apply same_sinks_trans.
    + apply same_sinks_material_options.
  - intro He. split.
    + unfold write_tex.
      destruct (List.length (Context.selected_objects context) =? 0)%nat;
        [reflexivity|].
      pose proof (@respects_assemble RT same_table
                    (fun w => eq_refl) same_table_trans o
                    (fun obj => same_table_material_options o obj He)
                    context w) as Ha.
      unfold mbind at 1.
      destruct (assemble context o w) as [[s|e] w1]; simpl in Ha;
        [|exact Ha].
      eapply same_table_trans; [exact Ha|].
      unfold write_file, copy_to_clipboard.
      destruct (CLIPBOARD_OUTPUT o); simpl.
      * destruct (clipboard_works sinks); reflexivity.
      * destruct (file sinks); reflexivity.
    + intros doc w' H. apply assemble_ok in H.
      destruct H as (code & matcode & _ & Hm & Hdoc).
      rewrite He in Hm. subst matcode. exists code. exact Hdoc.
Qed.
End FrameOfExport.

(** The theorem at the export of the four segments without materials. *)
Lemma export_frame_witness :
  EXPORT_MATERIALS Scenes.draw_only = false
  /\ same_table module_loaded
       (snd (write_tex Scenes.disk Scenes.depths "out.tex"
               Scenes.draw_only module_loaded)).
Proof.
  split; [reflexivity|].
  exact (proj1 (proj2 (@export_frame Dec4.runtime Scenes.disk
                         Scenes.depths "out.tex" Scenes.draw_only
                         module_loaded) eq_refl)).
Defined.

(** ** When the serialiser raises *)

Lemma join_vals_outcome sep l :
  if all_str l then exists s, join_vals sep l = Ok s
  else join_vals sep l = Raise TypeError.
Proof.
  unfold join_vals, all_str. induction l as [|[s|n] l IH]; simpl.
  - eexists. reflexivity.
  - destruct (forallb is_str l).
    + destruct IH as [joined IH].
      destruct (strs_of l) as [ss|e]; [|discriminate IH].
      eexists. reflexivity.
    + destruct (strs_of l) as [ss|e]; [discriminate IH|].
      simpl in *. exact IH.
  - reflexivity.
Qed.

Section Serialisable.
Context {RT : Runtime}.

Lemma bezier_path_outcome (spline : Spline.t) ps :
  if nonempty (Spline.bezier_points spline)
  then exists ps', bezier_path spline ps = Ok ps'
  else bezier_path spline ps = Raise IndexError.
Proof.
  unfold bezier_path.
  destruct (Spline.bezier_points spline) as [|point rest];
    destruct (Spline.use_cyclic_u spline); simpl;
    try reflexivity; eexists; reflexivity.
Qed.

Lemma poly_path_outcome o (obj : Object.t) (spline : Spline.t) ps :
  if (if USE_PLOTPATH o
      then all_str (get_property obj "plotstyle")
      else nonempty (Spline.SplinePoint spline)
           || negb (Spline.use_cyclic_u spline) && negb (WRAP_LINES o))
  then exists ps', poly_path o obj spline ps = Ok ps'
  else poly_path o obj spline ps = Raise IndexError
       \/ poly_path o obj spline ps = Raise TypeError.
Proof.
  unfold poly_path. destruct (USE_PLOTPATH o).
  - pose proof (join_vals_outcome "," (get_property obj "plotstyle")) as J.
    destruct (get_property obj "plotstyle") as [|v l] eqn:E.
    + simpl. eexists. reflexivity.
    + destruct (all_str (v :: l)).
      * destruct J as [s J]. rewrite J. simpl. eexists. reflexivity.
      * rewrite J. right. reflexivity.
  - destruct (Spline.SplinePoint spline) as [|point points];
      destruct (Spline.use_cyclic_u spline); destruct (WRAP_LINES o); simpl;
      try (left; reflexivity); eexists; reflexivity.
Qed.

Lemma spline_path_outcome o (obj : Object.t) (spline : Spline.t) ps :
  if spline_ok o obj spline
  then exists ps', spline_path o obj spline ps = Ok ps'
  else spline_path o obj spline ps = Raise IndexError
       \/ spline_path o obj spline ps = Raise TypeError.
Proof.
  unfold spline_ok, spline_path.
  destruct (String.eqb (Spline.type spline) "BEZIER").
  - pose proof (bezier_path_outcome spline ps) as H.
    destruct (nonempty (Spline.bezier_points spline));
      [exact H | left; exact H].
  - destruct (String.eqb (Spline.type spline) "POLY").
    + apply poly_path_outcome.
    + eexists. reflexivity.
Qed.

Lemma splines_path_outcome o (obj : Object.t) splines : forall ps,
  if forallb (spline_ok o obj) splines
  then exists ps', splines_path o obj splines ps = Ok ps'
  else splines_path o obj splines ps = Raise IndexError
       \/ splines_path o obj splines ps = Raise TypeError.
Proof.
  induction splines as [|spline rest IH]; intro ps; simpl.
  - eexists. reflexivity.
  - pose proof (spline_path_outcome o obj spline ps) as H.
    destruct (spline_ok o obj spline); simpl.
    + destruct H as [ps1 H]. rewrite H. simpl. apply IH.
    + destruct H as [H|H]; rewrite H; [left | right]; reflexivity.
Qed.

(** The splines of a curve are serialised without an exception exactly
    when each of them can be written; otherwise the serialiser raises
    [IndexError], at a spline that lacks a point it indexes, or
    [TypeError], at a [plotstyle] that is not a string. A Bezier spline
    without a control point always raises [IndexError]. *)
Theorem serialiser_raises_exactly_at_bad_splines o (obj : Object.t)
    splines ps :
  (if forallb (spline_ok o obj) splines
   then exists ps', splines_path o obj splines ps = Ok ps'
   else splines_path o obj splines ps = Raise IndexError
        \/ splines_path o obj splines ps = Raise TypeError)
  /\ forall spline acc,
      Spline.type spline = "BEZIER" ->
      Spline.bezier_points spline = [] ->
      spline_path o obj spline acc = Raise IndexError.
Proof.
  split; [apply splines_path_outcome|].
  intros spline acc Hty Hp. unfold spline_path. rewrite Hty.
  replace (String.eqb "BEZIER" "BEZIER") with true by reflexivity.
  pose proof (bezier_path_outcome spline acc) as H.
  rewrite Hp in H. exact H.
Qed.
End Serialisable.

(** The theorem at a Bezier spline without control points. *)
Lemma serialiser_raises_exactly_at_bad_splines_witness :
  Spline.bezier_points (@Spline.mk Dec4.runtime "BEZIER" false [] []) = []
  /\ spline_path Scenes.draw_only Scenes.arc
       (Spline.mk "BEZIER" false [] []) ""
     = Raise IndexError.
Proof.
  split; [reflexivity|].
  exact (proj2 (@serialiser_raises_exactly_at_bad_splines Dec4.runtime
                  Scenes.draw_only Scenes.arc [] "")
           (Spline.mk "BEZIER" false [] []) "" eq_refl eq_refl).
Defined.

(** ** When the materials cannot be written *)

Section MaterialOutcome.
Context {RT : Runtime}.

Lemma material_code_outcome ONLY (material : Material.t) :
  if material_ok material
  then exists code, material_code ONLY material = Ok code
  else material_code ONLY material = Raise TypeError.
Proof.
  unfold material_ok, material_code.
  destruct (Material.rgbCol material) as [[r g] b].
  destruct (dict_get "style" (Material.properties material)) as [[s|n]|].
  - destruct (proponly_of material ONLY); destruct s as [|c s]; simpl;
      destruct (Qle_bool 1 (fval (Material.alpha material))); simpl;
      eexists; reflexivity.
  - destruct (n =? 0)%Z eqn:E; simpl; rewrite E; simpl;
      destruct (proponly_of material ONLY); simpl;
      destruct (Qle_bool 1 (fval (Material.alpha material))); simpl;
      try reflexivity; eexists; reflexivity.
  - destruct (proponly_of material ONLY); simpl;
      destruct (Qle_bool 1 (fval (Material.alpha material))); simpl;
      eexists; reflexivity.
Qed.

Lemma material_code_plain ONLY (material : Material.t) :
  dict_get "style" (Material.properties material) = None ->
  material_code ONLY material = Ok (colour_definition material).
Proof.
  intro H. unfold material_code, colour_definition, registered_name.
  rewrite H. destruct (Material.rgbCol material) as [[r g] b].
  destruct (proponly_of material ONLY);
    destruct (Qle_bool 1 (fval (Material.alpha material)));
    cbn [truthy Py.is_empty negb andb app join_vals strs_of rbind Py.join
         String.concat];
    rewrite !append_assoc; reflexivity.
Qed.

Lemma write_materials_cases (table : dict Material.t) ONLY :
  if forallb material_ok (dict_values table)
  then exists c, write_materials table ONLY = Ok c
  else write_materials table ONLY = Raise TypeError.
Proof.
  unfold write_materials.
  generalize ("% Materials section " ++ Py.nl) as c0.
  induction (dict_values table) as [|m rest IH]; intro c0; simpl.
  - eexists. reflexivity.
  - pose proof (material_code_outcome ONLY m) as H.
    destruct (material_ok m); simpl.
    + destruct H as [code H]. rewrite H. simpl. apply IH.
    + rewrite H. simpl. apply write_materials_raise.
Qed.

(** [write_materials] returns its text exactly when the [style] of every
    material of the table is a string or counts as false, and raises
    [TypeError] otherwise. A material without a [style] property gets the
    definition by its colour alone, whatever [ONLY_PROPERTIES] and its own
    [onlyproperties] say. *)
Theorem write_materials_outcome (table : dict Material.t) ONLY :
  (if forallb material_ok (dict_values table)
   then exists c, write_materials table ONLY = Ok c
   else write_materials table ONLY = Raise TypeError)
  /\ forall material,
      dict_get "style" (Material.properties material) = None ->
      material_code ONLY material = Ok (colour_definition material).
Proof.
  split; [apply write_materials_cases |
          intro material; apply material_code_plain].
Qed.
End MaterialOutcome.

(** The theorem at the material [red], which has no [style]. *)
Lemma write_materials_outcome_witness :
  dict_get "style" (Material.properties Scenes.red) = None
  /\ material_code true Scenes.red = Ok (colour_definition Scenes.red).
Proof.
  split; [reflexivity|].
  exact (proj2 (@write_materials_outcome Dec4.runtime [] true)
           Scenes.red eq_refl).
Defined.

(** ** Scenes that export *)

Lemma all_str_app a b : all_str (a ++ b) = all_str a && all_str b.
Proof. unfold all_str. apply forallb_app. Qed.

Lemma forallb_dict_set {V} (P : V -> bool) k v (d : dict V) :
  P v = true ->
  forallb P (dict_values d) = true ->
  forallb P (dict_values (dict_set k v d)) = true.
Proof.
  intros Hv. induction d as [|[k' v'] d IH]; simpl; intro Hd.
  - rewrite Hv. reflexivity.
  - apply andb_true_iff in Hd. destruct Hd as [H1 H2].
    destruct (String.eqb k k'); simpl.
    + rewrite Hv. exact H2.
    + rewrite H1. apply IH. exact H2.
Qed.

Section WellFormed.
Context {RT : Runtime}.

Lemma derived_options_all_str o (obj : Object.t) ps :
  all_str (derived_options o obj ps) = true.
Proof.
  unfold derived_options.
  destruct (DRAW_CURVE o), (FILL_CLOSED_CURVE o),
    (0 <? Py.find "cycle" ps)%Z, (TRANSFORM_CURVE o); try reflexivity;
    destruct (fne (Vec.x (Object.location obj)) 0),
             (fne (Vec.y (Object.location obj)) 0),
             (fne (Vec.z (Object.rotation_euler obj)) 0),
             (fne (Vec.x (Object.scale obj)) 1),
             (fne (Vec.y (Object.scale obj)) 1);
    reflexivity.
Qed.

Lemma material_options_well_formed o (obj : Object.t) w :
  negb (EXPORT_MATERIALS o)
  || match first_material (slots obj) with
     | Some material => material_ok material
     | None => true
     end = true ->
  table_ok w = true ->
  exists matopts w',
    material_options o obj w = (Ok matopts, w')
    /\ all_str matopts = true
    /\ table_ok w' = true.
Proof.
  intros Hm Hw. unfold material_options. fold (slots obj).
  destruct (EXPORT_MATERIALS o); simpl in Hm.
  - destruct (first_material (slots obj)) as [material|].
    + eexists. eexists. split; [reflexivity|]. split; [reflexivity|].
      unfold table_ok. simpl. apply forallb_dict_set; assumption.
    + exists [], w. repeat split. exact Hw.
  - exists [], w. repeat split. exact Hw.
Qed.

Lemma write_object_well_formed (obj : Object.t) empties o w :
  object_ok o obj = true ->
  table_ok w = true ->
  exists out w',
    write_object obj empties o w = (Ok out, w') /\ table_ok w' = true.
Proof.
  intros Hobj Hw. unfold object_ok in Hobj. unfold write_object.
  destruct (String.eqb (Object.type obj) "CURVE") eqn:Ecurve.
  - apply andb_true_iff in Hobj. destruct Hobj as [Hobj Hmat].
    apply andb_true_iff in Hobj. destruct Hobj as [Hsplines Hstyle].
    cbn [orb negb].
    pose proof (splines_path_outcome o obj
                  (Curve.splines (Object.data obj)) "") as Hps.
    rewrite Hsplines in Hps. destruct Hps as [ps Hps].
    unfold mbind at 1. unfold lift at 1. rewrite Hps.
    destruct (Py.is_empty ps).
    + eexists. eexists. split; [reflexivity | exact Hw].
    + destruct (material_options_well_formed o obj w Hmat Hw)
        as (matopts & w1 & Hopts & Hstr & Hw1).
      unfold compose_options. unfold mbind at 1. unfold mbind at 1.
      rewrite Hopts. unfold mret at 1.
      pose proof (join_vals_outcome ","
                    ((derived_options o obj ps ++ matopts)
                       ++ get_property obj "style")) as J.
      rewrite !all_str_app, derived_options_all_str, Hstr, Hstyle in J.
      destruct J as [optstr J].
      unfold mbind at 1. unfold lift at 1. rewrite J.
      match goal with
      | |- exists _ _, (if ?b then _ else _) _ = _ /\ _ => destruct b
      end; eexists; eexists; (split; [reflexivity | exact Hw1]).
  - cbn [orb].
    destruct (String.eqb (Object.type obj) "Empty"); cbn [negb andb].
    + match goal with
      | |- exists _ _, (if ?b then _ else _) _ = _ /\ _ => destruct b
      end; eexists; eexists; (split; [reflexivity | exact Hw]).
    + eexists. eexists. split; [reflexivity | exact Hw].
Qed.

Lemma write_objects_well_formed objects empties o : forall code w,
  Forall (fun obj => object_ok o obj = true) objects ->
  table_ok w = true ->
  exists out w',
    write_objects objects empties o code w = (Ok out, w')
    /\ table_ok w' = true.
Proof.
  induction objects as [|obj rest IH]; intros code w Hobjs Hw.
  - exists code, w. split; [reflexivity | exact Hw].
  - inversion Hobjs as [|? ? Hobj Hrest]; subst.
    destruct (write_object_well_formed obj empties o w Hobj Hw)
      as (s & w1 & Hs & Hw1).
    destruct (IH (code ++ s) w1 Hrest Hw1) as (out & w' & Hout & Hw').
    exists out, w'. split; [|exact Hw'].
    simpl. unfold mbind. rewrite Hs. exact Hout.
Qed.

Lemma format_total o scn code matcode :
  exists doc,
    format (template_of o) (templatevars_of o scn code matcode) = Ok doc.
Proof.
  unfold template_of. destruct (STANDALONE o) eqn:Hs.
  - eexists. eapply format_standalone.
    + apply templatevars_preamble. exact Hs.
    + apply templatevars_materials.
    + apply templatevars_pathcode.
  - destruct (CODE_ONLY o).
    + eexists. eapply format_code_only. apply templatevars_pathcode.
    + eexists. eapply format_figure.
      * apply templatevars_materials.
      * apply templatevars_pathcode.
Qed.

(** A selection that is not empty and holds only objects that can be
    written is always exported: when the material table found at the
    start can be written too, [write_tex] raises nothing and returns the
    status that the sink decides, and the table it leaves can again be
    written. *)
Theorem well_formed_selection_exports sinks (context : Context.t)
    filepath o w :
  Context.selected_objects context <> [] ->
  Forall (fun obj => object_ok o obj = true)
    (Context.selected_objects context) ->
  table_ok w = true ->
  fst (write_tex sinks context filepath o w) = Ok (status_of sinks o)
  /\ table_ok (snd (write_tex sinks context filepath o w)) = true.
Proof.
  intros Hsel Hobjs Hw.
  assert (Hlen : (List.length (Context.selected_objects context) =? 0)%nat
                 = false).
  { destruct (Context.selected_objects context); [congruence | reflexivity]. }
  assert (Hsorted : Forall (fun obj => object_ok o obj = true)
                      (draw_order (Context.selected_objects context))).
  { eapply Permutation_Forall; [|exact Hobjs].
    apply Permutation_sym. apply sorted_permutation. }
  destruct (@write_objects_well_formed
              (draw_order (Context.selected_objects context))
              (empties_by_parent (Context.selected_objects context))
              o "" w Hsorted Hw) as (code & w1 & Hcode & Hw1).
  assert (Hasm : exists doc, assemble context o w = (Ok doc, w1)).
  { unfold assemble. unfold mbind at 1. rewrite Hcode.
    destruct (EXPORT_MATERIALS o).
    - pose proof (write_materials_cases (used_materials w1)
                    (ONLY_PROPERTIES o)) as Hm.
      unfold table_ok in Hw1. rewrite Hw1 in Hm. destruct Hm as [c Hm].
      destruct (format_total o (Context.scene context) code c) as [doc Hd].
      exists doc. unfold mbind, read_materials, lift. rewrite Hm, Hd.
      reflexivity.
    - destruct (format_total o (Context.scene context) code "") as [doc Hd].
      exists doc. unfold mbind, mret, lift. rewrite Hd. reflexivity. }
  destruct Hasm as [doc Hasm].
  unfold write_tex, status_of. rewrite Hlen.
  unfold mbind. rewrite Hasm.
  destruct (CLIPBOARD_OUTPUT o); cbn [negb].
  - unfold copy_to_clipboard. destruct (clipboard_works sinks);
      split; try reflexivity; exact Hw1.
  - unfold write_file. destruct (file sinks);
      split; try reflexivity; exact Hw1.
Qed.
End WellFormed.

(** The theorem at the export of a painted segment, an open Bezier curve
    and a marker, with the materials, from a freshly loaded module. *)
Lemma well_formed_selection_exports_witness :
  fst (write_tex Scenes.disk
         (Scenes.scene [Scenes.red_segment; Scenes.arc; Scenes.marker])
         "out.tex" Scenes.with_materials module_loaded)
  = Ok "File sucesfully writen".
Proof.
  refine (proj1 (@well_formed_selection_exports Dec4.runtime Scenes.disk
                   (Scenes.scene
                      [Scenes.red_segment; Scenes.arc; Scenes.marker])
                   "out.tex" Scenes.with_materials module_loaded
                   _ _ eq_refl)).
  - discriminate.
  - repeat constructor.
Defined.

(** ** Open Bezier splines *)

Section OpenBezier.
Context {RT : Runtime}.

(** The pairs of handles of an open spline: the right handle of each
    point with the left handle of the next one; the last right handle
    is dropped. *)
Lemma controls_of_open rest : forall (point : BezierPoint.t),
  map (fun h => controls_text (fst h) (snd h))
    (nsplit (removelast (BezierPoint.handle_right point :: handles_of rest)))
  = map (fun leg =>
           controls_text (BezierPoint.handle_right (fst leg))
             (BezierPoint.handle_left (snd leg)))
      (combine (point :: rest) rest).
Proof.
  induction rest as [|q rest IH]; intro point.
  - reflexivity.
  - change (handles_of (q :: rest))
      with (BezierPoint.handle_left q
              :: BezierPoint.handle_right q :: handles_of rest).
    change (removelast
              (BezierPoint.handle_right point
                 :: BezierPoint.handle_left q
                 :: BezierPoint.handle_right q :: handles_of rest))
      with (BezierPoint.handle_right point
              :: BezierPoint.handle_left q
              :: removelast (BezierPoint.handle_right q :: handles_of rest)).
    cbn [nsplit map combine fst snd]. f_equal. apply IH.
Qed.

Lemma bezier_path_open (spline : Spline.t) point rest acc :
  Spline.use_cyclic_u spline = false ->
  Spline.bezier_points spline = point :: rest ->
  bezier_path spline acc = Ok (open_path (point :: rest) acc).
Proof.
  intros Hc Hp. unfold bezier_path, open_path. rewrite Hc, Hp.
  change (handles_of (point :: rest))
    with (BezierPoint.handle_left point
            :: BezierPoint.handle_right point :: handles_of rest).
  cbn [first knots_of map rbind tl fst snd].
  rewrite controls_of_open. reflexivity.
Qed.

Lemma same_inner_handles_legs : forall (ps qs : list BezierPoint.t) first,
  same_inner_handles first ps qs ->
  map (fun leg =>
         controls_text (BezierPoint.handle_right (fst leg))
           (BezierPoint.handle_left (snd leg)))
    (combine ps (tl ps))
  = map (fun leg =>
           controls_text (BezierPoint.handle_right (fst leg))
             (BezierPoint.handle_left (snd leg)))
      (combine qs (tl qs))
  /\ knots_of ps = knots_of qs.
Proof.
  induction ps as [|p ps IH]; intros [|q qs] first H;
    cbn [same_inner_handles] in H; try contradiction.
  - split; reflexivity.
  - destruct H as (Hco & _ & Hr & Hrest).
    destruct (IH qs false Hrest) as [Hlegs Hknots].
    split.
    + cbn [tl]. destruct ps as [|p' ps], qs as [|q' qs];
        cbn [same_inner_handles] in Hrest; try contradiction;
        [reflexivity|].
      destruct Hr as [Hr|Hr]; [discriminate Hr|].
      destruct Hrest as (_ & [Hl|Hl] & _); [discriminate Hl|].
      cbn [tl] in Hlegs.
      change (combine (p :: p' :: ps) (p' :: ps))
        with ((p, p') :: combine (p' :: ps) ps).
      change (combine (q :: q' :: qs) (q' :: qs))
        with ((q, q') :: combine (q' :: qs) qs).
      cbn [map fst snd]. rewrite Hr, Hl, Hlegs. reflexivity.
    + unfold knots_of in *. cbn [map]. rewrite Hco, Hknots. reflexivity.
Qed.

(** An open Bezier spline with at least one control point is written as
    its first knot followed by one curve segment per pair of neighbouring
    points, through the right handle of the first and the left handle of
    the second. The left handle of the first point and the right handle
    of the last point have no influence on the text. *)
Theorem open_bezier_path (spline : Spline.t) point rest acc :
  Spline.use_cyclic_u spline = false ->
  Spline.bezier_points spline = point :: rest ->
  bezier_path spline acc = Ok (open_path (point :: rest) acc)
  /\ forall other : Spline.t,
      Spline.use_cyclic_u other = false ->
      same_inner_handles true (point :: rest) (Spline.bezier_points other) ->
      bezier_path other acc = bezier_path spline acc.
Proof.
  intros Hc Hp. split; [apply bezier_path_open; assumption|].
  intros other Hoc Hsame.
  destruct (Spline.bezier_points other) as [|q qs] eqn:Hq;
    [contradiction Hsame|].
  rewrite (bezier_path_open spline acc Hc Hp).
  rewrite (bezier_path_open other acc Hoc Hq).
  destruct (same_inner_handles_legs _ _ _ Hsame) as [Hlegs Hknots].
  unfold open_path. cbn [tl] in Hlegs. rewrite Hlegs.
  unfold knots_of in Hknots. cbn [map] in Hknots.
  injection Hknots as Hk0 Hk. unfold knots_of. rewrite Hk.
  cbn [same_inner_handles] in Hsame. destruct Hsame as (Hco & _).
  rewrite Hco. reflexivity.
Qed.
End OpenBezier.

(** The theorem at the open arc, and at the arc with its outer handles
    moved. *)
Lemma open_bezier_path_witness :
  bezier_path (Scenes.arc_spline false) ""
  = Ok ("(+-1.2340,+0.5000)" ++ Py.nl
          ++ "  .. controls (+-0.5000,+0.5000) and (+0.5000,+2.0000) .. "
          ++ "(+1.0000,+2.0000)" ++ Py.nl).
Proof.
  exact (proj1 (@open_bezier_path Dec4.runtime (Scenes.arc_spline false)
                  _ _ "" eq_refl eq_refl)).
Defined.

(** ** Markers and their parents *)

Section Markers.
Context {RT : Runtime}.






End Markers.


(** ** What the draw order depends on *)

Section SortCanonical.
Variable A : Type.
Variable key : A -> Q.

Let key_le (a b : A) : Prop := (key a <= key b)%Q.
Let has_key (q : Q) (a : A) : bool := Qeq_bool (key a) q.

Lemma has_key_self a : has_key (key a) a = true.
Proof. apply Qeq_bool_iff. reflexivity. Qed.

Lemma head_is_least a l b :
  StronglySorted key_le (a :: l) -> In b (a :: l) -> (key a <= key b)%Q.
Proof.
  intros Hs [<-|Hin].
  - apply Qle_refl.
  - inversion Hs as [|? ? _ Hall]; subst.
    rewrite Forall_forall in Hall. apply Hall. exact Hin.
Qed.

Lemma first_of_group a l (s : list A) :
  filter (has_key (key a)) s = a :: l -> In a s.
Proof.
  intro H. apply (proj1 (filter_In (has_key (key a)) a s)).
  rewrite H. left. reflexivity.
Qed.

(** A list sorted by key is determined by the order inside each group
    of equal keys. *)
Lemma sorted_by_groups_unique : forall s s' : list A,
  StronglySorted key_le s ->
  StronglySorted key_le s' ->
  (forall q, filter (has_key q) s = filter (has_key q) s') ->
  s = s'.
Proof.
  induction s as [|a t IH]; intros [|b t'] Hs Hs' Hf.
  - reflexivity.
  - specialize (Hf (key b)). cbn [filter] in Hf.
    rewrite has_key_self in Hf. discriminate Hf.
  - specialize (Hf (key a)). cbn [filter] in Hf.
    rewrite has_key_self in Hf. discriminate Hf.
  - assert (Hab : (key b <= key a)%Q).
    { apply (head_is_least Hs').
      pose proof (Hf (key a)) as H. cbn [filter] in H.
      rewrite has_key_self in H.
      destruct (has_key (key a) b);
        [injection H as <- _; left; reflexivity|].
      right. eapply first_of_group. symmetry. exact H. }
    assert (Hba : (key a <= key b)%Q).
    { apply (head_is_least Hs).
      pose proof (Hf (key b)) as H. cbn [filter] in H.
      rewrite has_key_self in H.
      destruct (has_key (key b) a);
        [injection H as -> _; left; reflexivity|].
      right. eapply first_of_group. exact H. }
    assert (E : a = b).
    { pose proof (Hf (key a)) as H. cbn [filter] in H.
      rewrite has_key_self in H.
      replace (has_key (key a) b) with true in H.
      - injection H as H _. exact H.
      - symmetry. apply Qeq_bool_iff. apply Qle_antisym; assumption. }
    subst b. f_equal. apply IH.
    + inversion Hs; assumption.
    + inversion Hs'; assumption.
    + intro q. specialize (Hf q). cbn [filter] in Hf.
      destruct (has_key q a); [injection Hf as Hf|]; exact Hf.
Qed.
End SortCanonical.

Section DrawOrderCanonical.
Context {RT : Runtime}.

Lemma draw_order_groups q (l : list Object.t) :
  filter (at_depth q) (draw_order l) = filter (at_depth q) l.
Proof.
  apply (sorted_stable z_comp (fun obj => fval (z_of obj)) key_lt_z_comp).
Qed.

Lemma draw_order_sorted (l : list Object.t) :
  StronglySorted depth_le (draw_order l).
Proof.
  apply (sorted_sorted z_comp (fun obj => fval (z_of obj)) key_lt_z_comp).
Qed.

(** The draw order depends on the order of the selection only through
    the order among the objects of each depth: two selections get the
    same draw order exactly when, at every depth, they list the same
    objects in the same order. A selection that is already in ascending
    depth is written in the order of the selection, and ordering an
    ordered selection again changes nothing. *)
Theorem draw_order_canonical (l : list Object.t) :
  (forall l',
     draw_order l = draw_order l'
     <-> forall q, filter (at_depth q) l = filter (at_depth q) l')
  /\ (StronglySorted depth_le l -> draw_order l = l)
  /\ draw_order (draw_order l) = draw_order l.
Proof.
  assert (U : forall s s' : list Object.t,
             StronglySorted depth_le s -> StronglySorted depth_le s' ->
             (forall q, filter (at_depth q) s = filter (at_depth q) s') ->
             s = s').
  { exact (@sorted_by_groups_unique Object.t (fun obj => fval (z_of obj))). }
  split; [|split].
  - intro l'. split.
    + intros E q. rewrite <- (draw_order_groups q l), E.
      apply draw_order_groups.
    + intro H. apply U; try apply draw_order_sorted.
      intro q. rewrite !draw_order_groups. apply H.
  - intro Hs. apply U; [apply draw_order_sorted | exact Hs |].
    intro q. apply draw_order_groups.
  - apply U; try apply draw_order_sorted.
    intro q. apply draw_order_groups.
Qed.
End DrawOrderCanonical.

(** The theorem at three segments selected from the farthest to the
    nearest. *)
Lemma draw_order_canonical_witness :
  StronglySorted depth_le [Scenes.far; Scenes.middle; Scenes.near]
  /\ draw_order [Scenes.far; Scenes.middle; Scenes.near]
     = [Scenes.far; Scenes.middle; Scenes.near].
Proof.
  assert (H : StronglySorted depth_le
                [Scenes.far; Scenes.middle; Scenes.near]).
  { repeat constructor; unfold depth_le; simpl; discriminate. }
  split; [exact H|].
  exact (proj1 (proj2 (@draw_order_canonical Dec4.runtime
                         [Scenes.far; Scenes.middle; Scenes.near])) H).
Defined.

(** ** What reaches the sinks *)

Section Delivery.
Context {RT : Runtime}.

Lemma mbind_after_ok {A B} (c : M A) (k : A -> M B) w a w1 :
  c w = (Ok a, w1) -> mbind c k w = k a w1.
Proof. unfold mbind. intros ->. reflexivity. Qed.

Lemma mbind_after_raise {A B} (c : M A) (k : A -> M B) w e w1 :
  c w = (Raise e, w1) -> mbind c k w = (Raise e, w1).
Proof. unfold mbind. intros ->. reflexivity. Qed.

Lemma assemble_same_sinks (context : Context.t) o w :
  same_sinks w (snd (assemble context o w)).
Proof.
  apply (respects_assemble (R := same_sinks)).
  - reflexivity.
  - apply same_sinks_trans.
  - apply same_sinks_material_options.
Qed.

(** The sinks receive nothing before the document is complete. An export
    that raises has written nothing: no file was opened and the
    clipboard is untouched. An export that assembles its document hands
    it to one sink only: the clipboard gets the document alone; the file
    gets the header line and then the document, and a failing step ends
    the writing. *)
Theorem sinks_receive_only_the_finished_document sinks
    (context : Context.t) filepath o w :
  (forall e,
     fst (write_tex sinks context filepath o w) = Raise e ->
     sink_log (snd (write_tex sinks context filepath o w)) = sink_log w
     /\ fst (assemble context o w) = Raise e)
  /\ (forall doc w1,
        Context.selected_objects context <> [] ->
        assemble context o w = (Ok doc, w1) ->
        sink_log (snd (write_tex sinks context filepath o w))
        = (sink_log w ++ delivered sinks o filepath doc)%list).
Proof.
  pose proof (assemble_same_sinks context o w) as Hframe.
  unfold same_sinks in Hframe. split.
  - intros e. unfold write_tex.
    destruct (List.length (Context.selected_objects context) =? 0)%nat;
      [discriminate|].
    destruct (assemble context o w) as [[doc|e'] w1] eqn:Ha;
      cbn [fst snd] in *.
    + erewrite mbind_after_ok by exact Ha.
      unfold write_file, copy_to_clipboard.
      destruct (CLIPBOARD_OUTPUT o), (clipboard_works sinks), (file sinks);
        discriminate.
    + erewrite mbind_after_raise by exact Ha. cbn [fst snd].
      intro H. split; [exact Hframe | exact H].
  - intros doc w1 Hsel Hdoc. unfold write_tex, delivered.
    destruct (Context.selected_objects context) as [|obj objs] eqn:Hobjs;
      [congruence|].
    cbn [List.length Nat.eqb]. erewrite mbind_after_ok by exact Hdoc.
    rewrite Hdoc in Hframe. cbn [snd] in Hframe. rewrite <- Hframe.
    unfold write_file, copy_to_clipboard.
    destruct (CLIPBOARD_OUTPUT o); cbn [negb].
    + destruct (clipboard_works sinks); cbn; [reflexivity|].
      symmetry. apply app_nil_r.
    + destruct (file sinks); cbn; rewrite <- ?app_assoc;
        try reflexivity.
      symmetry. apply app_nil_r.
Qed.
End Delivery.

(** The theorem at the export of the four segments to a file. *)
Lemma sinks_receive_only_the_finished_document_witness :
  exists doc,
    fst (assemble Scenes.depths Scenes.draw_only module_loaded) = Ok doc
    /\ sink_log (snd (write_tex Scenes.disk Scenes.depths "out.tex"
                        Scenes.draw_only module_loaded))
       = [FileOpened "out.tex"; FileWritten "out.tex" file_header;
          FileWritten "out.tex" doc].
Proof.
  eexists. split; [reflexivity|].
  refine (proj2 (@sinks_receive_only_the_finished_document Dec4.runtime
                   Scenes.disk Scenes.depths "out.tex" Scenes.draw_only
                   module_loaded) _ _ _ eq_refl).
  discriminate.
Defined.

(** ** The path text on one line *)

Lemma chars_append s t : Py.chars (s ++ t) = (Py.chars s ++ Py.chars t)%list.
Proof.
  unfold Py.chars. induction s as [|c s IH]; cbn; [reflexivity|].
  rewrite IH. reflexivity.
Qed.

Lemma no_space_append s t : no_space s -> no_space t -> no_space (s ++ t).
Proof.
  unfold no_space. rewrite chars_append. intros Hs Ht.
  apply Forall_app. split; assumption.
Qed.

Lemma split_from_words s : forall cur,
  no_space cur -> Forall word (Py.split_from cur s).
Proof.
  induction s as [|c s IH]; intros cur Hcur; cbn [Py.split_from].
  - destruct cur as [|a cur]; cbn [Py.is_empty]; [constructor|].
    constructor; [|constructor]. split; [discriminate | exact Hcur].
  - destruct (Py.isspace c) eqn:Hc.
    + destruct cur as [|a cur]; cbn [Py.is_empty].
      * apply IH. constructor.
      * constructor; [split; [discriminate | exact Hcur]|].
        apply IH. constructor.
    + apply IH. apply no_space_append; [exact Hcur|].
      repeat constructor. exact Hc.
Qed.

Lemma split_replace_nl s : forall cur,
  Py.split_from cur (Py.replace Py.nl_char " " s) = Py.split_from cur s.
Proof.
  induction s as [|c s IH]; intro cur; [reflexivity|].
  cbn [Py.replace Py.split_from].
  destruct (Ascii.eqb_spec c Py.nl_char) as [->|Hc].
  - change (Py.isspace " ") with true. change (Py.isspace Py.nl_char) with true.
    rewrite !IH. reflexivity.
  - rewrite !IH. reflexivity.
Qed.

Lemma split_from_word w : forall cur s,
  no_space w ->
  Py.split_from cur (w ++ s) = Py.split_from (cur ++ w) s.
Proof.
  induction w as [|c w IH]; intros cur s Hw.
  - rewrite append_empty_r. reflexivity.
  - unfold no_space, Py.chars in Hw. cbn [list_ascii_of_string] in Hw.
    inversion Hw as [|? ? Hc Hrest]; subst.
    change (String c w ++ s) with (String c (w ++ s)).
    cbn [Py.split_from]. rewrite Hc. rewrite IH by exact Hrest.
    rewrite append_assoc. reflexivity.
Qed.

Lemma is_empty_false s : s <> "" -> Py.is_empty s = false.
Proof. destruct s; [congruence | reflexivity]. Qed.

Lemma split_join_words : forall words,
  Forall word words -> Py.split (Py.join " " words) = words.
Proof.
  unfold Py.split, Py.join.
  induction words as [|w words IH]; intro H; [reflexivity|].
  inversion H as [|? ? [Hne Hw] Hrest]; subst.
  destruct words as [|w' words].
  - cbn [String.concat]. rewrite <- (append_empty_r w) at 1.
    rewrite split_from_word by exact Hw. rewrite append_empty_l.
    cbn [Py.split_from]. rewrite is_empty_false by exact Hne. reflexivity.
  - change (String.concat " " (w :: w' :: words))
      with (w ++ " " ++ String.concat " " (w' :: words)).
    rewrite split_from_word by exact Hw. rewrite append_empty_l.
    change (" " ++ String.concat " " (w' :: words))
      with (String " " (String.concat " " (w' :: words))).
    cbn [Py.split_from]. change (Py.isspace " ") with true.
    rewrite is_empty_false by exact Hne. f_equal. apply IH. exact Hrest.
Qed.

Lemma join_words_chars : forall words,
  Forall word words ->
  Forall (fun c => Py.isspace c = false \/ c = " "%char)
    (Py.chars (Py.join " " words)).
Proof.
  unfold Py.join.
  induction words as [|w words IH]; intro H; [constructor|].
  inversion H as [|? ? [Hne Hw] Hrest]; subst.
  assert (Hword : Forall (fun c => Py.isspace c = false \/ c = " "%char)
                    (Py.chars w)).
  { eapply Forall_impl; [|exact Hw]. cbn. intros c Hc. left. exact Hc. }
  destruct words as [|w' words]; [exact Hword|].
  change (String.concat " " (w :: w' :: words))
    with (w ++ " " ++ String.concat " " (w' :: words)).
  rewrite !chars_append. apply Forall_app. split; [exact Hword|].
  apply Forall_app. split; [|apply IH; exact Hrest].
  constructor; [right; reflexivity | constructor].
Qed.

Lemma rstrip_word_end s : forall w,
  word w -> Py.rstrip (s ++ w) = s ++ w.
Proof.
  assert (Hword : forall w, word w ->
                    Py.rstrip w = w).
  { induction w as [|c w IH]; intros [Hne Hw]; [congruence|].
    unfold no_space, Py.chars in Hw. cbn [list_ascii_of_string] in Hw.
    inversion Hw as [|? ? Hc Hrest]; subst.
    cbn [Py.rstrip]. rewrite Hc, andb_false_r.
    destruct w as [|c' w]; [reflexivity|].
    rewrite IH; [reflexivity|]. split; [discriminate | exact Hrest]. }
  induction s as [|c s IH]; intros w Hw.
  - rewrite append_empty_l. apply Hword. exact Hw.
  - change (String c s ++ w) with (String c (s ++ w)).
    cbn [Py.rstrip]. rewrite IH by exact Hw.
    replace (Py.is_empty (s ++ w)) with false; [reflexivity|].
    destruct Hw as [Hne _]. destruct s; [|reflexivity].
    rewrite append_empty_l. symmetry. apply is_empty_false. exact Hne.
Qed.

Lemma rstrip_after_words : forall words,
  Forall word words -> words <> [] ->
  forall s,
    Py.rstrip (s ++ String.concat " " words) = s ++ String.concat " " words.
Proof.
  induction words as [|w words IH]; intros H Hne s; [congruence|].
  inversion H as [|? ? Hw Hrest]; subst.
  destruct words as [|w' words].
  - cbn [String.concat]. apply rstrip_word_end. exact Hw.
  - change (String.concat " " (w :: w' :: words))
      with (w ++ " " ++ String.concat " " (w' :: words)).
    rewrite <- !append_assoc. apply IH; [exact Hrest | discriminate].
Qed.

Lemma rstrip_join_words : forall words,
  Forall word words ->
  Py.rstrip (Py.join " " words) = Py.join " " words.
Proof.
  intros [|w words] H; [reflexivity|].
  unfold Py.join. rewrite <- (append_empty_l (String.concat _ _)).
  apply rstrip_after_words; [exact H | discriminate].
Qed.

(** Without [WRAP_LINES] the path text is put on one line: the words of
    the text, joined by single blanks. The replacement of the line feeds
    before the split changes nothing; the text put into the statement
    holds no line feed and no white space but single blanks between
    words, so the [rstrip] applied to it removes nothing, and
    normalising it again returns it unchanged. *)
Theorem path_text_on_one_line (ps : string) :
  normalised ps = Py.join " " (Py.split ps)
  /\ Forall word (Py.split ps)
  /\ Forall (fun c => Py.isspace c = false \/ c = " "%char)
       (Py.chars (normalised ps))
  /\ Py.rstrip (normalised ps) = normalised ps
  /\ normalised (normalised ps) = normalised ps.
Proof.
  assert (E : normalised ps = Py.join " " (Py.split ps)).
  { unfold normalised, Py.split. rewrite split_replace_nl. reflexivity. }
  assert (W : Forall word (Py.split ps)).
  { apply split_from_words. constructor. }
  split; [exact E|]. split; [exact W|]. rewrite E.
  split; [apply join_words_chars; exact W|].
  split; [apply rstrip_join_words; exact W|].
  unfold normalised at 1. unfold Py.split at 1. rewrite split_replace_nl.
  fold (Py.split (Py.join " " (Py.split ps))).
  rewrite split_join_words by exact W. reflexivity.
Qed.

(** ** Open curves are not filled *)

Lemma lacks_append c s t : lacks c s -> lacks c t -> lacks c (s ++ t).
Proof.
  unfold lacks. rewrite chars_append. intros Hs Ht.
  apply Forall_app. split; assumption.
Qed.

Ltac lacks_literal :=
  solve [unfold lacks, Py.chars; cbn [list_ascii_of_string];
         repeat constructor; discriminate].

Ltac lacks_parts known :=
  repeat first [assumption | lacks_literal | known | apply lacks_append].

Lemma lacks_uint c d :
  (forall k, (k < 10)%nat -> ascii_of_nat (48 + k) <> c) ->
  lacks c (NilEmpty.string_of_uint d).
Proof.
  intro Hc. unfold lacks, Py.chars.
  induction d as [|d IH|d IH|d IH|d IH|d IH|d IH|d IH|d IH|d IH|d IH];
    cbn [NilEmpty.string_of_uint list_ascii_of_string];
    [constructor|..]; (constructor; [|exact IH]).
  - apply (Hc 0%nat). lia.
  - apply (Hc 1%nat). lia.
  - apply (Hc 2%nat). lia.
  - apply (Hc 3%nat). lia.
  - apply (Hc 4%nat). lia.
  - apply (Hc 5%nat). lia.
  - apply (Hc 6%nat). lia.
  - apply (Hc 7%nat). lia.
  - apply (Hc 8%nat). lia.
  - apply (Hc 9%nat). lia.
Qed.

Lemma digit_not_y k : (k < 10)%nat -> ascii_of_nat (48 + k) <> "y"%char.
Proof.
  intro H. do 10 (destruct k as [|k]; [vm_compute; discriminate|]). lia.
Qed.

Lemma lacks_str_of_Z n : lacks "y" (Py.str_of_Z n).
Proof.
  unfold Py.str_of_Z, NilZero.string_of_int.
  assert (U : forall d, lacks "y" (NilZero.string_of_uint d)).
  { intro d. unfold NilZero.string_of_uint.
    pose proof (lacks_uint d digit_not_y) as H.
    destruct d; try exact H. lacks_literal. }
  destruct (Z.to_int n) as [d|d]; [apply U|].
  change (String "-" (NilZero.string_of_uint d))
    with ("-" ++ NilZero.string_of_uint d).
  apply lacks_append; [lacks_literal | apply U].
Qed.

Lemma lacks_digit n : (0 <= n < 10)%Z -> digit n <> "y"%char.
Proof. intro H. unfold digit. apply digit_not_y. lia. Qed.

Lemma lacks_pad4 n : lacks "y" (pad4 n).
Proof.
  unfold lacks, pad4, Py.chars. cbn [list_ascii_of_string].
  repeat constructor; apply lacks_digit; apply Z.mod_pos_bound; lia.
Qed.

Section OpenNotFilled.
Context {RT : Runtime}.

Lemma lacks_fmt4f (x : float) : lacks "y" (fmt4f x).
Proof.
  unfold fmt4f. cbv zeta. apply lacks_append.
  - destruct (fsign x); [lacks_literal | constructor].
  - lacks_parts ltac:(first [apply lacks_str_of_Z | apply lacks_pad4]).
Qed.

Lemma lacks_knot_text v : lacks "y" (knot_text v).
Proof.
  unfold knot_text. lacks_parts ltac:(apply lacks_fmt4f).
Qed.

Lemma lacks_controls_text h1 h2 : lacks "y" (controls_text h1 h2).
Proof.
  unfold controls_text. lacks_parts ltac:(apply lacks_knot_text).
Qed.

Lemma lacks_segments hh knots : forall acc,
  Forall (lacks "y") hh -> Forall (lacks "y") knots -> lacks "y" acc ->
  lacks "y" (segments hh knots acc).
Proof.
  unfold segments. revert knots.
  induction hh as [|h hh IH]; intros [|k knots] acc Hh Hk Hacc;
    cbn [combine fold_left]; try exact Hacc.
  inversion Hh; subst. inversion Hk; subst.
  apply IH; try assumption. cbn [fst snd].
  assert (Hnl : lacks "y" Py.nl) by (repeat constructor; discriminate).
  lacks_parts fail.
Qed.

Lemma lacks_open_path points acc :
  lacks "y" acc -> lacks "y" (open_path points acc).
Proof.
  intro Hacc. destruct points as [|point rest]; [exact Hacc|].
  unfold open_path. apply lacks_segments.
  - apply Forall_forall. intros h Hin. apply in_map_iff in Hin.
    destruct Hin as (leg & <- & _). apply lacks_controls_text.
  - apply Forall_forall. intros k Hin. apply in_map_iff in Hin.
    destruct Hin as (p & <- & _). apply lacks_knot_text.
  - assert (Hnl : lacks "y" Py.nl) by (repeat constructor; discriminate).
    lacks_parts ltac:(apply lacks_knot_text).
Qed.

Lemma find_cycle_lacks : forall s, lacks "y" s -> Py.find "cycle" s = (-1)%Z.
Proof.
  induction s as [|c s IH]; intro H; [reflexivity|].
  unfold lacks, Py.chars in H. cbn [list_ascii_of_string] in H.
  inversion H as [|? ? Hc Hs]; subst.
  rewrite find_cons, (IH Hs).
  replace (String.prefix "cycle" (String c s)) with false; [reflexivity|].
  symmetry. change "cycle" with (String "c" (String "y" "cle")).
  rewrite prefix_cons. destruct (Ascii.ascii_dec "c" c); [|reflexivity].
  destruct s as [|c' s]; [reflexivity|].
  rewrite prefix_cons. destruct (Ascii.ascii_dec "y" c'); [|reflexivity].
  subst c'. unfold Py.chars in Hs. cbn [list_ascii_of_string] in Hs.
  inversion Hs as [|? ? Hy _]. congruence.
Qed.

Lemma splines_path_open_lacks o (obj : Object.t) splines : forall acc ps,
  Forall open_curve splines ->
  lacks "y" acc ->
  splines_path o obj splines acc = Ok ps ->
  lacks "y" ps.
Proof.
  induction splines as [|spline rest IH]; intros acc ps Hopen Hacc H.
  - cbn in H. congruence.
  - inversion Hopen as [|? ? [Hpoly Hcyc] Hrest]; subst.
    cbn [splines_path] in H. unfold spline_path in H.
    apply String.eqb_neq in Hpoly. rewrite Hpoly in H.
    destruct (String.eqb_spec (Spline.type spline) "BEZIER") as [Hbez|_].
    + specialize (Hcyc Hbez).
      destruct (Spline.bezier_points spline) as [|point points] eqn:Hp.
      * pose proof (bezier_path_outcome spline acc) as Hb.
        rewrite Hp in Hb. rewrite Hb in H. discriminate H.
      * rewrite (bezier_path_open spline acc Hcyc Hp) in H.
        cbn [rbind] in H.
        eapply IH; [exact Hrest | | exact H].
        apply lacks_open_path. exact Hacc.
    + cbn [rbind] in H. eapply IH; eassumption.
Qed.

(** A curve made of open Bezier splines and of splines of kinds that
    are skipped, closed or not, is never filled by [FILL_CLOSED_CURVE]:
    its path text does not hold the word [cycle], and the options derived
    from the flags and the transform hold no fill flag. *)
Theorem open_curves_are_not_filled o (obj : Object.t) ps :
  Forall open_curve (Curve.splines (Object.data obj)) ->
  splines_path o obj (Curve.splines (Object.data obj)) "" = Ok ps ->
  Py.find "cycle" ps = (-1)%Z
  /\ count_fill (derived_options o obj ps) = 0%nat.
Proof.
  intros Hopen Hps.
  assert (Hfind : Py.find "cycle" ps = (-1)%Z).
  { apply find_cycle_lacks.
    eapply splines_path_open_lacks with (acc := "");
      [exact Hopen | constructor | exact Hps]. }
  split; [exact Hfind|].
  unfold derived_options. rewrite Hfind.
  destruct (DRAW_CURVE o), (FILL_CLOSED_CURVE o), (TRANSFORM_CURVE o);
    try reflexivity;
    destruct (fne (Vec.x (Object.location obj)) 0),
             (fne (Vec.y (Object.location obj)) 0),
             (fne (Vec.z (Object.rotation_euler obj)) 0),
             (fne (Vec.x (Object.scale obj)) 1),
             (fne (Vec.y (Object.scale obj)) 1);
    reflexivity.
Qed.
End OpenNotFilled.

(** The theorem at the open arc followed by a closed NURBS spline, with
    [FILL_CLOSED_CURVE] set. *)
Lemma open_curves_are_not_filled_witness :
  exists ps,
    splines_path Scenes.fill_closed Scenes.arc_and_patch
      (Curve.splines (Object.data Scenes.arc_and_patch)) "" = Ok ps
    /\ count_fill
         (derived_options Scenes.fill_closed Scenes.arc_and_patch ps)
       = 0%nat.
Proof.
  eexists. split; [reflexivity|].
  refine (proj2 (@open_curves_are_not_filled Dec4.runtime
                   Scenes.fill_closed Scenes.arc_and_patch _ _ eq_refl)).
  repeat constructor; discriminate.
Defined.

(** ** Materials that carry their own style *)

Section OwnStyle.
Context {RT : Runtime}.

(** The [onlyproperties] property of a material, when it has one,
    decides in place of the [ONLY_PROPERTIES] option, which is then
    without effect on the definition of that material. A material for
    which only the properties count and whose [style] is a string that
    is not empty is defined by that style alone: no colour is defined
    for it and neither colour nor opacity enters its style. *)
Theorem own_properties_decide (material : Material.t) :
  (forall v,
     dict_get "onlyproperties" (Material.properties material) = Some v ->
     forall a b, material_code a material = material_code b material)
  /\ (forall ONLY style,
        proponly_of material ONLY = true ->
        dict_get "style" (Material.properties material)
        = Some (PyStr style) ->
        style <> "" ->
        material_code ONLY material
        = Ok ("\tikzstyle{" ++ registered_name material ++ "}= ["
                ++ style ++ "]" ++ Py.nl)).
Proof.
  split.
  - intros v Hv a b. unfold material_code, proponly_of. rewrite Hv.
    reflexivity.
  - intros ONLY style Hp Hs Hne. unfold material_code, registered_name.
    rewrite Hp, Hs. destruct (Material.rgbCol material) as [[r g] b].
    destruct style as [|c style]; [congruence|]. reflexivity.
Qed.
End OwnStyle.

(** The theorem at the material [ink]. *)
Lemma own_properties_decide_witness :
  material_code false Scenes.ink
  = Ok ("\tikzstyle{ink*1}= [thick,dashed]" ++ Py.nl).
Proof.
  refine (proj2 (@own_properties_decide Dec4.runtime Scenes.ink)
            false "thick,dashed" eq_refl eq_refl _).
  discriminate.
Defined.
